(** * Pendulum.js: the pendulum simulation and its energy history

    A shallow embedding of [src/Pendulum.js].  JavaScript numbers are
    idealised as real numbers ([R]); integer tick counters and the
    millisecond clock are integers ([Z]).  React state is an explicit record:
    one handler or frame callback maps the committed state to the next
    committed state (a render separates two callbacks, so the values a
    closure captured are the current ones, and an updater passed to a
    setter runs once, on the committed value). *)

From Stdlib Require Import Reals Lra Lia ZArith List Bool.
Import ListNotations.

Open Scope R_scope.

(** ** The parts of three.js and of [Math] the component calls *)

Module THREE.

Record Vector3 : Type := mkVector3 { x : R; y : R; z : R }.

(** [new THREE.Vector3().subVectors(a, b)] *)
Definition subVectors (a b : Vector3) : Vector3 :=
  mkVector3 (x a - x b) (y a - y b) (z a - z b).

(** [v.length()] *)
Definition length (v : Vector3) : R :=
  sqrt (x v * x v + y v * y v + z v * z v).

(** [v.normalize()], that is [v.divideScalar(v.length() || 1)] *)
Definition normalize (v : Vector3) : Vector3 :=
  let l := length v in
  let d := if Req_dec_T l 0 then 1 else l in
  mkVector3 (x v / d) (y v / d) (z v / d).

(** [a.distanceTo(b)] *)
Definition distanceTo (a b : Vector3) : R :=
  let dx := x a - x b in
  let dy := y a - y b in
  let dz := z a - z b in
  sqrt (dx * dx + dy * dy + dz * dz).

(** The world position of a point given in the frame of a group whose
    only transform is a rotation about the z axis. *)
Definition localToWorld (rotation_z : R) (p : Vector3) : Vector3 :=
  mkVector3 (x p * cos rotation_z - y p * sin rotation_z)
            (x p * sin rotation_z + y p * cos rotation_z)
            (z p).

End THREE.

(** [Math.atan2(y, x)] on real numbers: the angle in (-PI, PI] of the
    point (x, y), and 0 at the origin. *)
Definition atan2 (y x : R) : R :=
  if Rlt_dec 0 x then atan (y / x)
  else if Rlt_dec x 0 then
    (if Rle_dec 0 y then atan (y / x) + PI else atan (y / x) - PI)
  else if Rlt_dec 0 y then PI / 2
  else if Rlt_dec y 0 then - (PI / 2)
  else 0.

(** ** Energy samples, as passed to [onEnergyUpdate] *)

Module Energy.

Record Sample : Type := mkSample {
  kineticEnergy : R;
  potentialEnergy : R;
  mechanicalEnergy : R
}.

End Energy.

(** ** The [Pendulum] component *)

Module Pendulum.

(** A pointer event.  The handlers only use it through the raycaster
    ([setFromCamera] followed by [ray.intersectPlane] with the plane
    z = 0); camera and window belong to the host, so the event is
    represented by the point the raycaster leaves in [intersectPoint]. *)
Record PointerEvent : Type := mkPointerEvent {
  intersectPoint : THREE.Vector3
}.

(** The [useState] cells of the component, and the z rotation of the
    [pivot] group, which the callbacks write through the ref. *)
Record State : Type := mkState {
  isDragging : bool;
  isClickedDown : bool;
  angle : R;
  velocity : R;
  amplitude : R;
  lastGravityOn : bool;
  rotation_z : R
}.

Definition length : R := 2.

(** The initial values of the [useState] calls; the group is created
    without a rotation. *)
Definition initialState : State :=
  {| isDragging := true;
     isClickedDown := false;
     angle := PI / 2;
     velocity := 0;
     amplitude := PI / 2;
     lastGravityOn := true;
     rotation_z := 0 |}.

(** [sphere.current.position]: the position the [Sphere] is given inside
    the [pivot] group.  No callback writes it. *)
Definition sphere_position : THREE.Vector3 :=
  THREE.mkVector3 0 (- length) 0.

Definition pivotPosition : THREE.Vector3 := THREE.mkVector3 0 0 0.

(** Where the bob is drawn: the sphere's position carried through the
    rotation of the [pivot] group. *)
Definition renderedBobPosition (s : State) : THREE.Vector3 :=
  THREE.localToWorld (rotation_z s) sphere_position.

Definition calculateAngleFromMouse (event : PointerEvent) : R :=
  let direction :=
    THREE.normalize (THREE.subVectors (intersectPoint event) pivotPosition) in
  let newAngle := atan2 (THREE.y direction) (THREE.x direction) in
  newAngle.

Definition handlePointerDown (event : PointerEvent) (s : State) : State :=
  let distanceToSphere :=
    THREE.distanceTo (intersectPoint event) sphere_position in
  if Rlt_dec distanceToSphere 0.5 then
    let newAngle := calculateAngleFromMouse event in
    {| isDragging := true;
       isClickedDown := true;
       angle := newAngle;
       velocity := 0;
       amplitude := Rabs newAngle;
       lastGravityOn := lastGravityOn s;
       rotation_z := rotation_z s |}
  else s.

Definition handlePointerMove (event : PointerEvent) (s : State) : State :=
  if isDragging s && isClickedDown s then
    let newAngle := calculateAngleFromMouse event in
    {| isDragging := isDragging s;
       isClickedDown := isClickedDown s;
       angle := newAngle + PI / 2;
       velocity := velocity s;
       amplitude := amplitude s;
       lastGravityOn := lastGravityOn s;
       rotation_z := newAngle + PI / 2 |}
  else s.

Definition handlePointerUp (s : State) : State :=
  {| isDragging := false;
     isClickedDown := false;
     angle := angle s;
     velocity := velocity s;
     amplitude := amplitude s;
     lastGravityOn := lastGravityOn s;
     rotation_z := rotation_z s |}.

(** The amplitude after the first statement of the frame callback. *)
Definition detectGravityOff (gravityOn : bool) (s : State) : R :=
  if negb (Bool.eqb (lastGravityOn s) gravityOn) && negb gravityOn
  then angle s
  else amplitude s.

(** The frame callback, with the props [isSwinging] and [gravityOn] and
    the value [now] of [Date.now()].  It returns the next state and the
    sample handed to [onEnergyUpdate], if any. *)
Definition useFrame (isSwinging gravityOn : bool) (now : Z) (s : State)
  : State * option Energy.Sample :=
  let amplitude' := detectGravityOff gravityOn s in
  if isSwinging && negb (isDragging s) then
    if gravityOn then
      let prevAngle := angle s in
      let acceleration := -0.001 * sin prevAngle in
      let newVelocity := velocity s + acceleration in
      let newVelocity := newVelocity * 0.999 in
      let newAngle := prevAngle + newVelocity in
      let kineticEnergy := 0.5 * (length * newVelocity) ^ 2 in
      let potentialEnergy := 0.001 * length * (1 - cos newAngle) in
      let mechanicalEnergy := kineticEnergy + potentialEnergy in
      ({| isDragging := isDragging s;
          isClickedDown := isClickedDown s;
          angle := newAngle;
          velocity := newVelocity;
          amplitude := amplitude';
          lastGravityOn := gravityOn;
          rotation_z := newAngle |},
       Some (Energy.mkSample kineticEnergy potentialEnergy mechanicalEnergy))
    else
      let newAngle := amplitude s * sin (IZR now * 0.002) in
      ({| isDragging := isDragging s;
          isClickedDown := isClickedDown s;
          angle := newAngle;
          velocity := velocity s;
          amplitude := amplitude';
          lastGravityOn := gravityOn;
          rotation_z := newAngle |},
       None)
  else
    ({| isDragging := isDragging s;
        isClickedDown := isClickedDown s;
        angle := angle s;
        velocity := velocity s;
        amplitude := amplitude';
        lastGravityOn := gravityOn;
        rotation_z := rotation_z s |},
     None).

(** Successive frames with fixed props, one clock reading per frame. *)
Definition runFrames (isSwinging gravityOn : bool) (clock : list Z)
  (s : State) : State :=
  fold_left (fun st now => fst (useFrame isSwinging gravityOn now st)) clock s.

(** A pointer event whose ray meets the plane of the pendulum at
    (px, py, 0). *)
Definition pointerAt (px py : R) : PointerEvent :=
  mkPointerEvent (THREE.mkVector3 px py 0).

(** States used as examples below: the initial state once the pointer
    has been released, and the pendulum hanging at rest. *)
Definition releasedState : State := handlePointerUp initialState.

Definition restState : State :=
  {| isDragging := false;
     isClickedDown := false;
     angle := 0;
     velocity := 0;
     amplitude := PI / 2;
     lastGravityOn := true;
     rotation_z := 0 |}.

(** The initial state once the bob has been pressed where it is first
    drawn (see [press_on_first_bob] below). *)
Definition pressedState : State :=
  {| isDragging := true;
     isClickedDown := true;
     angle := - (PI / 2);
     velocity := 0;
     amplitude := PI / 2;
     lastGravityOn := true;
     rotation_z := 0 |}.

End Pendulum.

(** ** The [PendulumScene] component *)

Module PendulumScene.

(** The [energyData] object: four arrays that grow together. *)
Record EnergyData : Type := mkEnergyData {
  mechanicalEnergy : list R;
  potentialEnergy : list R;
  kineticEnergy : list R;
  time : list Z
}.

Definition initialEnergyData : EnergyData :=
  {| mechanicalEnergy := [];
     potentialEnergy := [];
     kineticEnergy := [];
     time := [] |}.

(** The updater that [handleEnergyUpdate] passes to [setEnergyData]. *)
Definition handleEnergyUpdate (energy : Energy.Sample)
  (prevState : EnergyData) : EnergyData :=
  let time' :=
    if (List.length (time prevState) =? 0)%nat then 0%Z
    else (nth (List.length (time prevState) - 1) (time prevState) 0 + 1)%Z in
  {| mechanicalEnergy :=
       mechanicalEnergy prevState ++ [Energy.mechanicalEnergy energy];
     potentialEnergy :=
       potentialEnergy prevState ++ [Energy.potentialEnergy energy];
     kineticEnergy :=
       kineticEnergy prevState ++ [Energy.kineticEnergy energy];
     time := time prevState ++ [time'] |}.

(** Appending a run of samples, oldest first. *)
Definition appendSamples (samples : list Energy.Sample)
  (d : EnergyData) : EnergyData :=
  fold_left (fun acc energy => handleEnergyUpdate energy acc) samples d.

(** All four arrays have [n] elements. *)
Definition seriesLength (d : EnergyData) (n : nat) : Prop :=
  List.length (mechanicalEnergy d) = n
  /\ List.length (potentialEnergy d) = n
  /\ List.length (kineticEnergy d) = n
  /\ List.length (time d) = n.

Record State : Type := mkState {
  isSwinging : bool;
  gravityOn : bool;
  energyData : EnergyData;
  pendulum : Pendulum.State
}.

Definition initialState : State :=
  {| isSwinging := true;
     gravityOn := false;
     energyData := initialEnergyData;
     pendulum := Pendulum.initialState |}.

(** What can happen to the scene: the two buttons, the pointer handlers
    of the sphere, and an animation frame at a clock reading. *)
Inductive Event : Type :=
| ToggleSwinging
| ToggleGravity
| PointerDown (event : Pendulum.PointerEvent)
| PointerMove (event : Pendulum.PointerEvent)
| PointerUp
| Frame (now : Z).

Definition withPendulum (sc : State) (p : Pendulum.State) : State :=
  {| isSwinging := isSwinging sc;
     gravityOn := gravityOn sc;
     energyData := energyData sc;
     pendulum := p |}.

Definition step (sc : State) (ev : Event) : State :=
  match ev with
  | ToggleSwinging =>
      {| isSwinging := negb (isSwinging sc);
         gravityOn := gravityOn sc;
         energyData := energyData sc;
         pendulum := pendulum sc |}
  | ToggleGravity =>
      {| isSwinging := isSwinging sc;
         gravityOn := negb (gravityOn sc);
         energyData := energyData sc;
         pendulum := pendulum sc |}
  | PointerDown event =>
      withPendulum sc (Pendulum.handlePointerDown event (pendulum sc))
  | PointerMove event =>
      withPendulum sc (Pendulum.handlePointerMove event (pendulum sc))
  | PointerUp =>
      withPendulum sc (Pendulum.handlePointerUp (pendulum sc))
  | Frame now =>
      let '(p, emitted) :=
        Pendulum.useFrame (isSwinging sc) (gravityOn sc) now (pendulum sc) in
      {| isSwinging := isSwinging sc;
         gravityOn := gravityOn sc;
         energyData :=
           match emitted with
           | Some energy => handleEnergyUpdate energy (energyData sc)
           | None => energyData sc
           end;
         pendulum := p |}
  end.

Definition run (sc : State) (evs : list Event) : State :=
  fold_left step evs sc.

(** Example sessions.  Both begin with a first frame, pause the
    simulation and press on the bob where it is first drawn, straight below
    the pivot.  The first drags the bob to the right of the pivot and lets
    go.  The second drags it to the lower left, lets go, switches gravity
    on and off again with a frame after each switch, and resumes. *)
Definition dragToHorizontal : list Event :=
  [Frame 0;
   ToggleSwinging;
   PointerDown (Pendulum.mkPointerEvent Pendulum.sphere_position);
   PointerMove (Pendulum.pointerAt 2 0);
   PointerUp;
   Frame 16].

Definition dragToLowerLeft : list Event :=
  [Frame 0;
   ToggleSwinging;
   PointerDown (Pendulum.mkPointerEvent Pendulum.sphere_position);
   PointerMove (Pendulum.pointerAt (-1) (-1));
   PointerUp;
   Frame 16;
   ToggleGravity;
   Frame 33;
   ToggleGravity;
   Frame 50;
   ToggleSwinging].

End PendulumScene.

(** ** The [AngleScale] component *)

Module AngleScale.

(** The five marks of the scale, in radians. *)
Definition angles : list R :=
  [PI / 2; PI / 4; 0; - (PI / 4); - (PI / 2)].

Definition radius (length : R) : R := length + 0.5.

(** The [position] prop of the label of [angle], inside the group of the
    scale. *)
Definition labelPosition (length angle : R) : THREE.Vector3 :=
  THREE.mkVector3 (radius length * cos angle) (radius length * sin angle) 0.

(** The z component of the [rotation] prop of the label. *)
Definition labelRotation (angle : R) : R :=
  if Rlt_dec angle 0 then - angle
  else if Req_dec_T angle 0 then PI / 2
  else angle.

(** The number the label prints, [angle * (180 / Math.PI)], before
    [toFixed(0)] turns it into text. *)
Definition labelDegrees (angle : R) : R := angle * (180 / PI).

(** The z rotation of the group that holds the labels. *)
Definition groupRotation : R := - (PI / 2).

(** Where the label of [angle] is drawn. *)
Definition renderedLabelPosition (length angle : R) : THREE.Vector3 :=
  THREE.localToWorld groupRotation (labelPosition length angle).

End AngleScale.

(** ** What [PendulumScene] hands to the pie chart *)

Module Chart.

(** [xs.slice(-1)]: the last element as a one-element array, or the empty
    array. *)
Definition slice_last (xs : list R) : list R :=
  skipn (List.length xs - 1) xs.

(** [v || 0] for an array element [v] that may be [undefined]. *)
Definition orZero (v : option R) : R :=
  match v with
  | Some r => if Req_dec_T r 0 then 0 else r
  | None => 0
  end.

Definition latestEnergy (energyData : PendulumScene.EnergyData)
  : Energy.Sample :=
  {| Energy.mechanicalEnergy :=
       orZero (nth_error
                 (slice_last (PendulumScene.mechanicalEnergy energyData)) 0);
     Energy.potentialEnergy :=
       orZero (nth_error
                 (slice_last (PendulumScene.potentialEnergy energyData)) 0);
     Energy.kineticEnergy :=
       orZero (nth_error
                 (slice_last (PendulumScene.kineticEnergy energyData)) 0) |}.

(** [energyChartData.datasets[0].data]: the three slices of the pie, under
    the labels Mechanical, Potential and Kinetic Energy. *)
Definition energyChartData (energyData : PendulumScene.EnergyData) : list R :=
  let latest := latestEnergy energyData in
  [Energy.mechanicalEnergy latest;
   Energy.potentialEnergy latest;
   Energy.kineticEnergy latest].

(** The rows of the history: the mechanical, potential and kinetic energy
    stored at the same index. *)
Definition rows (energyData : PendulumScene.EnergyData)
  : list (R * (R * R)) :=
  combine (PendulumScene.mechanicalEnergy energyData)
          (combine (PendulumScene.potentialEnergy energyData)
                   (PendulumScene.kineticEnergy energyData)).

(** What the frame callback computes for a sample: the mechanical energy
    is the sum of the other two, the kinetic energy is not negative and the
    potential energy lies between 0 and 0.001 * length * 2. *)
Definition wellFormed (m p k : R) : Prop :=
  m = k + p /\ 0 <= k /\ 0 <= p <= 0.004.

End Chart.

(** ** The gravity flag along a session *)

Module Session.

(** The values of the [gravityOn] prop that the frames of a session see,
    oldest first, when the flag is [gravityOn] before the first event. *)
Fixpoint gravityAtFrames (gravityOn : bool)
  (evs : list PendulumScene.Event) : list bool :=
  match evs with
  | [] => []
  | PendulumScene.ToggleGravity :: rest => gravityAtFrames (negb gravityOn) rest
  | PendulumScene.Frame _ :: rest => gravityOn :: gravityAtFrames gravityOn rest
  | _ :: rest => gravityAtFrames gravityOn rest
  end.

(** The flag after the toggles of a session. *)
Fixpoint gravityAfter (gravityOn : bool)
  (evs : list PendulumScene.Event) : bool :=
  match evs with
  | [] => gravityOn
  | PendulumScene.ToggleGravity :: rest => gravityAfter (negb gravityOn) rest
  | _ :: rest => gravityAfter gravityOn rest
  end.


End Session.

(** ** Trigonometric facts used below *)

(** Split on the first real comparison in the goal; the impossible side is
    closed by linear arithmetic from the context. *)
Ltac split_comparison :=
  match goal with
  | |- context [Rlt_dec ?a ?b] => destruct (Rlt_dec a b); try lra
  | |- context [Rle_dec ?a ?b] => destruct (Rle_dec a b); try lra
  | |- context [Req_dec_T ?a ?b] => destruct (Req_dec_T a b); try lra
  end.

Section Trigonometry.

Lemma sin_cos_not_both_zero (phi : R) : sin phi = 0 -> cos phi = 0 -> False.
Proof.
  intros Hs Hc. pose proof (sin2_cos2 phi) as H.
  unfold Rsqr in H. rewrite Hs, Hc in H. lra.
Qed.

(** The sign of the cosine and of the sine on the pieces of (-PI, PI]. *)
Lemma cos_neg_left (phi : R) : - PI < phi -> phi < - (PI / 2) -> cos phi < 0.
Proof.
  intros H1 H2. rewrite <- cos_neg.
  apply cos_lt_0; pose proof PI_RGT_0; lra.
Qed.

Lemma cos_neg_right (phi : R) : PI / 2 < phi -> phi <= PI -> cos phi < 0.
Proof.
  intros H1 H2. apply cos_lt_0; pose proof PI_RGT_0; lra.
Qed.

Lemma sin_neg_left (phi : R) : - PI < phi -> phi < 0 -> sin phi < 0.
Proof. intros H1 H2. apply sin_lt_0_var; lra. Qed.

Lemma tan_shift (psi : R) : cos psi <> 0 ->
  tan (psi + PI) = sin psi / cos psi.
Proof.
  intros Hc. unfold tan. rewrite neg_sin, neg_cos. field. exact Hc.
Qed.

Lemma tan_unshift (psi : R) : cos psi <> 0 ->
  tan (psi - PI) = sin psi / cos psi.
Proof.
  intros Hc.
  assert (Hc' : cos (psi - PI) <> 0).
  { intros H. apply Hc. replace psi with (psi - PI + PI) by ring.
    rewrite neg_cos, H. ring. }
  unfold tan. remember (psi - PI) as q eqn:Eq.
  replace psi with (q + PI) by (subst q; ring).
  rewrite neg_sin, neg_cos. field. exact Hc'.
Qed.

(** [atan2] inverts the polar parametrisation on (-PI, PI]. *)
Lemma atan2_sin_cos (phi : R) :
  - PI < phi <= PI -> atan2 (sin phi) (cos phi) = phi.
Proof.
  intros [Hlo Hhi]. pose proof PI_RGT_0 as Hpi.
  destruct (Rtotal_order phi (- (PI / 2))) as [Hl | [He | Hg]].
  - (* third quadrant *)
    pose proof (cos_neg_left phi Hlo Hl) as Hc.
    assert (Hs : sin phi < 0) by (apply sin_neg_left; lra).
    unfold atan2. repeat split_comparison.
    rewrite <- tan_shift by lra.
    rewrite atan_tan by lra. ring.
  - (* straight below the pivot: phi = -PI/2 *)
    subst phi. unfold atan2.
    rewrite cos_neg, sin_neg, cos_PI2, sin_PI2.
    repeat split_comparison.
  - destruct (Rtotal_order phi (PI / 2)) as [Hl | [He | Hg2]].
    + (* right half plane *)
      assert (Hc : 0 < cos phi) by (apply cos_gt_0; lra).
      unfold atan2. repeat split_comparison.
      change (sin phi / cos phi) with (tan phi).
      apply atan_tan. lra.
    + subst phi. unfold atan2. rewrite cos_PI2, sin_PI2.
      repeat split_comparison.
    + (* second quadrant *)
      pose proof (cos_neg_right phi Hg2 Hhi) as Hc.
      assert (Hs : 0 <= sin phi) by (apply sin_ge_0; lra).
      unfold atan2. repeat split_comparison.
      rewrite <- tan_unshift by lra.
      rewrite atan_tan by lra. ring.
Qed.

End Trigonometry.

(** ** Pointer geometry *)

Section PointerGeometry.

Import THREE.

Lemma sqrt_not_below (X b : R) : 0 <= b -> b * b <= X -> ~ sqrt X < b.
Proof.
  intros Hb HX Hlt.
  assert (H0 : 0 <= X) by nra.
  pose proof (sqrt_sqrt X H0) as Hs.
  pose proof (sqrt_pos X) as Hp.
  nra.
Qed.

(** The length of the vector from the pivot to the point at distance [r]
    and direction [phi] in the plane of the pendulum. *)
Lemma length_polar (r phi : R) : 0 <= r ->
  length (subVectors (mkVector3 (r * cos phi) (r * sin phi) 0)
                     Pendulum.pivotPosition) = r.
Proof.
  intros Hr. unfold length, subVectors, Pendulum.pivotPosition. cbn [x y z].
  replace ((r * cos phi - 0) * (r * cos phi - 0) +
           (r * sin phi - 0) * (r * sin phi - 0) + (0 - 0) * (0 - 0))
    with (r * r * (Rsqr (sin phi) + Rsqr (cos phi)))
    by (unfold Rsqr; ring).
  rewrite sin2_cos2, Rmult_1_r. apply sqrt_square. exact Hr.
Qed.

(** [calculateAngleFromMouse] reads back the direction of the pointer
    as seen from the pivot. *)
Lemma calculateAngleFromMouse_polar (r phi : R) :
  0 < r -> - PI < phi <= PI ->
  Pendulum.calculateAngleFromMouse
    (Pendulum.mkPointerEvent (mkVector3 (r * cos phi) (r * sin phi) 0)) = phi.
Proof.
  intros Hr Hphi.
  unfold Pendulum.calculateAngleFromMouse, normalize.
  cbn [Pendulum.intersectPoint].
  rewrite length_polar by lra.
  destruct (Req_dec_T r 0) as [E | _]; [lra|].
  unfold subVectors, Pendulum.pivotPosition. cbn [x y z].
  replace ((r * sin phi - 0) / r) with (sin phi) by (field; lra).
  replace ((r * cos phi - 0) / r) with (cos phi) by (field; lra).
  apply atan2_sin_cos. exact Hphi.
Qed.

(** Where the bob is drawn under a rotation [theta] of the pivot, in polar
    form: at distance [length] from the pivot, in direction
    [theta - PI/2]. *)
Lemma rendered_bob_polar (theta : R) :
  localToWorld theta Pendulum.sphere_position =
  mkVector3 (Pendulum.length * cos (theta - PI / 2))
            (Pendulum.length * sin (theta - PI / 2)) 0.
Proof.
  unfold localToWorld, Pendulum.sphere_position. cbn [x y z].
  replace (theta - PI / 2) with (- (PI / 2 - theta)) by ring.
  rewrite cos_neg, sin_neg, cos_shift, sin_shift.
  f_equal; ring.
Qed.

Lemma polar_full_turn (r phi : R) :
  mkVector3 (r * cos phi) (r * sin phi) 0 =
  mkVector3 (r * cos (phi + 2 * PI)) (r * sin (phi + 2 * PI)) 0.
Proof.
  rewrite cos_plus, sin_plus, cos_2PI, sin_2PI.
  f_equal; ring.
Qed.

(** The pointer angle of the drawn bob: a quarter turn behind the
    rotation of the pivot, taken in (-PI, PI]. *)
Lemma calculateAngleFromMouse_bob (theta : R) :
  - PI <= theta <= PI ->
  Pendulum.calculateAngleFromMouse
    (Pendulum.mkPointerEvent (localToWorld theta Pendulum.sphere_position))
  = if Rlt_dec (- (PI / 2)) theta then theta - PI / 2
    else theta - PI / 2 + 2 * PI.
Proof.
  intros [Hlo Hhi]. pose proof PI_RGT_0 as Hpi.
  rewrite rendered_bob_polar.
  destruct (Rlt_dec (- (PI / 2)) theta) as [Hq | Hq].
  - apply calculateAngleFromMouse_polar; unfold Pendulum.length; lra.
  - rewrite polar_full_turn.
    apply calculateAngleFromMouse_polar; unfold Pendulum.length; lra.
Qed.

End PointerGeometry.

(** ** The integrator *)

Section Integrator.

Import Pendulum.

(** A frame with the simulation running, nobody dragging and gravity on
    is one step of the damped pendulum. *)
Lemma useFrame_gravity_on (now : Z) (s : State) :
  isDragging s = false ->
  useFrame true true now s =
  let newVelocity := (velocity s + -0.001 * sin (angle s)) * 0.999 in
  let newAngle := angle s + newVelocity in
  ({| isDragging := false;
      isClickedDown := isClickedDown s;
      angle := newAngle;
      velocity := newVelocity;
      amplitude := amplitude s;
      lastGravityOn := true;
      rotation_z := newAngle |},
   Some (Energy.mkSample
           (0.5 * (length * newVelocity) ^ 2)
           (0.001 * length * (1 - cos newAngle))
           (0.5 * (length * newVelocity) ^ 2
            + 0.001 * length * (1 - cos newAngle)))).
Proof.
  intros H. unfold useFrame, detectGravityOff. rewrite H.
  cbn [andb negb]. rewrite andb_false_r. reflexivity.
Qed.

(** The same frame with gravity off follows the clock. *)
Lemma useFrame_gravity_off (now : Z) (s : State) :
  isDragging s = false ->
  useFrame true false now s =
  ({| isDragging := false;
      isClickedDown := isClickedDown s;
      angle := amplitude s * sin (IZR now * 0.002);
      velocity := velocity s;
      amplitude := if lastGravityOn s then angle s else amplitude s;
      lastGravityOn := false;
      rotation_z := amplitude s * sin (IZR now * 0.002) |},
   None).
Proof.
  intros H. unfold useFrame, detectGravityOff. rewrite H.
  destruct (lastGravityOn s); reflexivity.
Qed.

(** While dragging, or while paused, a frame moves nothing. *)
Lemma useFrame_blocked (isSwinging gravityOn : bool) (now : Z) (s : State) :
  isSwinging && negb (isDragging s) = false ->
  useFrame isSwinging gravityOn now s =
  ({| isDragging := isDragging s;
      isClickedDown := isClickedDown s;
      angle := angle s;
      velocity := velocity s;
      amplitude := detectGravityOff gravityOn s;
      lastGravityOn := gravityOn;
      rotation_z := rotation_z s |},
   None).
Proof. intros H. unfold useFrame. rewrite H. reflexivity. Qed.

(** The rest position is kept by any run of gravity-on frames. *)
Lemma runFrames_rest (clock : list Z) : forall s : State,
  isDragging s = false -> angle s = 0 -> velocity s = 0 ->
  let s' := runFrames true true clock s in
  isDragging s' = false /\ angle s' = 0 /\ velocity s' = 0.
Proof.
  induction clock as [| now clock IH]; intros s Hd Ha Hv.
  - cbn. auto.
  - unfold runFrames. cbn [fold_left].
    apply IH; rewrite useFrame_gravity_on by exact Hd;
      cbn [fst isDragging angle velocity];
      try reflexivity; rewrite Ha, Hv, sin_0; lra.
Qed.

(** C1: with the simulation running, nobody dragging and gravity on, a
    frame takes (angle, velocity) to newVelocity = (velocity + (-0.001 *
    sin angle)) * 0.999 and newAngle = angle + newVelocity; from angle PI/2
    at rest the next velocity is -0.000999 and the next angle PI/2 -
    0.000999; and angle 0 at rest stays angle 0 at rest over any number of
    frames. *)
Theorem C1_gravity_on_step (now : Z) (clock : list Z) (s : State)
  (Hidle : isDragging s = false) :
  let s' := fst (useFrame true true now s) in
  (velocity s' = (velocity s + (-0.001 * sin (angle s))) * 0.999
   /\ angle s' = angle s + velocity s')
  /\ (angle s = PI / 2 -> velocity s = 0 ->
      velocity s' = -0.000999 /\ angle s' = PI / 2 - 0.000999)
  /\ (angle s = 0 -> velocity s = 0 ->
      angle (runFrames true true clock s) = 0
      /\ velocity (runFrames true true clock s) = 0).
Proof.
  cbn zeta. rewrite useFrame_gravity_on by exact Hidle.
  cbn [fst angle velocity]. split; [split; reflexivity | split].
  - intros Ha Hv. rewrite Ha, Hv, sin_PI2. split; lra.
  - intros Ha Hv. apply (runFrames_rest clock s Hidle Ha Hv).
Qed.

Lemma C1_gravity_on_step_witness :
  (velocity (fst (useFrame true true 0 releasedState)) = -0.000999
   /\ angle (fst (useFrame true true 0 releasedState)) = PI / 2 - 0.000999)
  /\ (angle (runFrames true true [0; 16; 33]%Z restState) = 0
      /\ velocity (runFrames true true [0; 16; 33]%Z restState) = 0).
Proof.
  split.
  - apply (C1_gravity_on_step 0 [] releasedState); reflexivity.
  - apply (C1_gravity_on_step 0 [0; 16; 33]%Z restState); reflexivity.
Defined.

(** C2: a frame hands a sample to [onEnergyUpdate] exactly when the
    simulation is running, nobody is dragging and gravity is on; the sample
    is computed from the angle and velocity the frame has just produced, as
    kineticEnergy = 0.5 * (length * velocity)^2, potentialEnergy = 0.001 *
    length * (1 - cos angle) and their sum, with length = 2; in every other
    frame the energy history is left as it is. *)
Theorem C2_energy_sample :
  length = 2
  /\ (forall (isSwinging gravityOn : bool) (now : Z) (s : State),
      snd (useFrame isSwinging gravityOn now s) =
      if isSwinging && negb (isDragging s) && gravityOn then
        let s' := fst (useFrame isSwinging gravityOn now s) in
        let kineticEnergy := 0.5 * (length * velocity s') ^ 2 in
        let potentialEnergy := 0.001 * length * (1 - cos (angle s')) in
        Some (Energy.mkSample kineticEnergy potentialEnergy
                (kineticEnergy + potentialEnergy))
      else None)
  /\ (forall (sc : PendulumScene.State) (now : Z),
      PendulumScene.energyData (PendulumScene.step sc (PendulumScene.Frame now)) =
      match snd (useFrame (PendulumScene.isSwinging sc)
                   (PendulumScene.gravityOn sc) now
                   (PendulumScene.pendulum sc)) with
      | Some energy =>
          PendulumScene.handleEnergyUpdate energy (PendulumScene.energyData sc)
      | None => PendulumScene.energyData sc
      end).
Proof.
  split; [reflexivity | split].
  - intros isSwinging gravityOn now s. unfold useFrame.
    destruct isSwinging, (isDragging s), gravityOn; reflexivity.
  - intros sc now. unfold PendulumScene.step.
    destruct (useFrame _ _ _ _) as [p emitted]. reflexivity.
Qed.

End Integrator.

(** ** The clock-driven regime *)

Section GravityOff.

Import Pendulum.

Lemma scaled_sine_bound (a t : R) : - Rabs a <= a * sin t <= Rabs a.
Proof.
  pose proof (SIN_bound t) as [Hlo Hhi].
  unfold Rabs. destruct (Rcase_abs a); split; nra.
Qed.

(** C3: with the simulation running, nobody dragging and gravity off, a
    frame sets the angle to amplitude * sin (wallClockMillis * 0.002); the
    result does not depend on the previous angle (two states with the same
    amplitude get the same angle), and the velocity is left as it was. *)
Theorem C3_gravity_off_step (now : Z) (s : State)
  (Hidle : isDragging s = false) :
  let s' := fst (useFrame true false now s) in
  angle s' = amplitude s * sin (IZR now * 0.002)
  /\ velocity s' = velocity s
  /\ (forall t : State, isDragging t = false -> amplitude t = amplitude s ->
      angle (fst (useFrame true false now t)) = angle s').
Proof.
  cbn zeta. rewrite useFrame_gravity_off by exact Hidle.
  cbn [fst angle velocity]. repeat split.
  intros t Ht Hamp. rewrite useFrame_gravity_off by exact Ht.
  cbn [fst angle]. rewrite Hamp. reflexivity.
Qed.

Lemma C3_gravity_off_step_witness :
  angle (fst (useFrame true false 1000 releasedState))
  = PI / 2 * sin (1000 * 0.002)
  /\ velocity (fst (useFrame true false 1000 releasedState)) = 0
  /\ angle (fst (useFrame true false 1000 restState))
     = angle (fst (useFrame true false 1000 releasedState)).
Proof.
  pose proof (C3_gravity_off_step 1000 releasedState eq_refl) as [Ha [Hv Hi]].
  split; [exact Ha | split; [exact Hv |]].
  apply (Hi restState); reflexivity.
Defined.

(** C8, amended: for any amplitude and at any clock reading, the angle of
    a gravity-off frame, amplitude * sin (wallClockMillis * 0.002), lies in
    [-|amplitude|, |amplitude|]; this is [-amplitude, amplitude] when the
    amplitude is not negative. *)
Theorem C8_gravity_off_bounded (now : Z) (s : State)
  (Hidle : isDragging s = false) :
  let s' := fst (useFrame true false now s) in
  angle s' = amplitude s * sin (IZR now * 0.002)
  /\ - Rabs (amplitude s) <= angle s' <= Rabs (amplitude s)
  /\ (0 <= amplitude s -> - amplitude s <= angle s' <= amplitude s).
Proof.
  cbn zeta. rewrite useFrame_gravity_off by exact Hidle.
  cbn [fst angle]. split; [reflexivity | split].
  - apply scaled_sine_bound.
  - intros Hpos.
    pose proof (scaled_sine_bound (amplitude s) (IZR now * 0.002)) as H.
    rewrite Rabs_right in H by lra. exact H.
Qed.

Lemma C8_gravity_off_bounded_witness :
  - Rabs (PI / 2) <= angle (fst (useFrame true false 1000 releasedState))
                  <= Rabs (PI / 2)
  /\ - (PI / 2) <= angle (fst (useFrame true false 1000 releasedState))
                <= PI / 2.
Proof.
  pose proof (C8_gravity_off_bounded 1000 releasedState eq_refl)
    as [_ [Habs Hpos]].
  split; [exact Habs | apply Hpos].
  cbn [amplitude releasedState handlePointerUp initialState].
  pose proof PI_RGT_0. lra.
Defined.

End GravityOff.

(** ** The pointer handlers *)

Section Interaction.

Import THREE Pendulum.

Lemma distanceTo_self (p : Vector3) : distanceTo p p = 0.
Proof.
  unfold distanceTo. cbn zeta.
  replace ((x p - x p) * (x p - x p) + (y p - y p) * (y p - y p)
           + (z p - z p) * (z p - z p)) with 0 by ring.
  apply sqrt_0.
Qed.

Lemma handlePointerDown_near (event : PointerEvent) (s : State) :
  distanceTo (intersectPoint event) sphere_position < 0.5 ->
  handlePointerDown event s =
  {| isDragging := true;
     isClickedDown := true;
     angle := calculateAngleFromMouse event;
     velocity := 0;
     amplitude := Rabs (calculateAngleFromMouse event);
     lastGravityOn := lastGravityOn s;
     rotation_z := rotation_z s |}.
Proof.
  intros H. unfold handlePointerDown. cbn zeta.
  destruct (Rlt_dec _ _) as [_ | N]; [reflexivity | contradiction].
Qed.

Lemma handlePointerDown_far (event : PointerEvent) (s : State) :
  ~ distanceTo (intersectPoint event) sphere_position < 0.5 ->
  handlePointerDown event s = s.
Proof.
  intros H. unfold handlePointerDown. cbn zeta.
  destruct (Rlt_dec _ _) as [Y | _]; [contradiction | reflexivity].
Qed.

(** Pointer angles of the three points the example sessions use. *)
Lemma angle_below_pivot :
  calculateAngleFromMouse (mkPointerEvent sphere_position) = - (PI / 2).
Proof.
  pose proof PI_RGT_0.
  rewrite <- (calculateAngleFromMouse_polar 2 (- (PI / 2))) by lra.
  unfold sphere_position, length.
  rewrite cos_neg, sin_neg, cos_PI2, sin_PI2.
  repeat f_equal; ring.
Qed.

Lemma angle_right_of_pivot :
  calculateAngleFromMouse (pointerAt 2 0) = 0.
Proof.
  pose proof PI_RGT_0.
  replace (pointerAt 2 0)
    with (mkPointerEvent (mkVector3 (2 * cos 0) (2 * sin 0) 0)).
  - apply calculateAngleFromMouse_polar; lra.
  - unfold pointerAt. rewrite cos_0, sin_0. repeat f_equal; ring.
Qed.

Lemma angle_lower_left :
  calculateAngleFromMouse (pointerAt (-1) (-1)) = - (3 * (PI / 4)).
Proof.
  pose proof PI_RGT_0. pose proof sqrt2_neq_0 as Hn.
  assert (0 < sqrt 2) by (apply sqrt_lt_R0; lra).
  rewrite <- (calculateAngleFromMouse_polar (sqrt 2) (- (3 * (PI / 4))))
    by lra.
  unfold pointerAt. rewrite cos_neg, sin_neg, cos_3PI4, sin_3PI4.
  repeat f_equal; field; exact Hn.
Qed.

Lemma press_on_first_bob (s : State) :
  handlePointerDown (mkPointerEvent sphere_position) s =
  {| isDragging := true;
     isClickedDown := true;
     angle := - (PI / 2);
     velocity := 0;
     amplitude := PI / 2;
     lastGravityOn := lastGravityOn s;
     rotation_z := rotation_z s |}.
Proof.
  pose proof PI_RGT_0.
  rewrite handlePointerDown_near
    by (cbn [intersectPoint]; rewrite distanceTo_self; lra).
  rewrite angle_below_pivot, Rabs_Ropp, Rabs_right by lra.
  reflexivity.
Qed.


Lemma run_cons (sc : PendulumScene.State) (ev : PendulumScene.Event)
  (evs : list PendulumScene.Event) :
  PendulumScene.run sc (ev :: evs)
  = PendulumScene.run (PendulumScene.step sc ev) evs.
Proof. reflexivity. Qed.

(** Take the next event of a session; a frame is expected to find the
    frame callback blocked. *)
Ltac next_event :=
  rewrite run_cons;
  cbn [PendulumScene.step PendulumScene.withPendulum
       PendulumScene.pendulum PendulumScene.isSwinging
       PendulumScene.gravityOn PendulumScene.energyData negb];
  try (rewrite useFrame_blocked by reflexivity; unfold detectGravityOff);
  cbn [isDragging isClickedDown andb negb Bool.eqb
       angle velocity amplitude lastGravityOn rotation_z].

(** The scene after the first example session: paused and released, with
    the pendulum at angle PI/2 and drawn at rotation PI/2. *)
Lemma dragToHorizontal_scene :
  PendulumScene.run PendulumScene.initialState PendulumScene.dragToHorizontal
  = {| PendulumScene.isSwinging := false;
       PendulumScene.gravityOn := false;
       PendulumScene.energyData := PendulumScene.initialEnergyData;
       PendulumScene.pendulum :=
         {| isDragging := false;
            isClickedDown := false;
            angle := PI / 2;
            velocity := 0;
            amplitude := PI / 2;
            lastGravityOn := false;
            rotation_z := PI / 2 |} |}.
Proof.
  unfold PendulumScene.dragToHorizontal, PendulumScene.initialState,
    initialState.
  next_event. next_event.
  next_event. rewrite press_on_first_bob.
  cbn [lastGravityOn rotation_z].
  next_event. unfold handlePointerMove.
  cbn [isDragging isClickedDown andb angle velocity amplitude
       lastGravityOn rotation_z].
  rewrite angle_right_of_pivot.
  next_event. unfold handlePointerUp.
  cbn [angle velocity amplitude lastGravityOn rotation_z].
  next_event.
  unfold PendulumScene.run. cbn [fold_left].
  do 2 f_equal; lra.
Qed.

(** The scene after the second example session: running, gravity off,
    released, with a negative amplitude captured when gravity went off. *)
Lemma dragToLowerLeft_scene :
  PendulumScene.run PendulumScene.initialState PendulumScene.dragToLowerLeft
  = {| PendulumScene.isSwinging := true;
       PendulumScene.gravityOn := false;
       PendulumScene.energyData := PendulumScene.initialEnergyData;
       PendulumScene.pendulum :=
         {| isDragging := false;
            isClickedDown := false;
            angle := - (PI / 4);
            velocity := 0;
            amplitude := - (PI / 4);
            lastGravityOn := false;
            rotation_z := - (PI / 4) |} |}.
Proof.
  unfold PendulumScene.dragToLowerLeft, PendulumScene.initialState,
    initialState.
  next_event. next_event.
  next_event. rewrite press_on_first_bob.
  cbn [lastGravityOn rotation_z].
  next_event. unfold handlePointerMove.
  cbn [isDragging isClickedDown andb angle velocity amplitude
       lastGravityOn rotation_z].
  rewrite angle_lower_left.
  next_event. unfold handlePointerUp.
  cbn [angle velocity amplitude lastGravityOn rotation_z].
  do 6 next_event.
  unfold PendulumScene.run. cbn [fold_left].
  do 2 f_equal; lra.
Qed.

End Interaction.

(** ** Claims about the interaction *)

Section InteractionClaims.

Import THREE Pendulum.

Lemma pendulum_after_frame (sc : PendulumScene.State) (now : Z) :
  PendulumScene.pendulum (PendulumScene.step sc (PendulumScene.Frame now)) =
  fst (useFrame (PendulumScene.isSwinging sc) (PendulumScene.gravityOn sc)
         now (PendulumScene.pendulum sc)).
Proof.
  unfold PendulumScene.step.
  destruct (useFrame _ _ _ _) as [p emitted]. reflexivity.
Qed.

Lemma amplitude_after_frame (isSwinging gravityOn : bool) (now : Z)
  (s : State) :
  amplitude (fst (useFrame isSwinging gravityOn now s)) =
  detectGravityOff gravityOn s.
Proof.
  unfold useFrame.
  destruct (isSwinging && negb (isDragging s)), gravityOn; reflexivity.
Qed.

(** While the pointer holds the pendulum, no run of frames moves it. *)
Lemma runFrames_held (isSwinging gravityOn : bool) (clock : list Z) :
  forall s : State, isDragging s = true ->
  let s' := runFrames isSwinging gravityOn clock s in
  isDragging s' = true /\ angle s' = angle s /\ velocity s' = velocity s.
Proof.
  induction clock as [| now clock IH]; intros s Hd.
  - cbn. auto.
  - unfold runFrames. cbn [fold_left].
    fold (runFrames isSwinging gravityOn clock
            (fst (useFrame isSwinging gravityOn now s))).
    assert (Hb : isSwinging && negb (isDragging s) = false)
      by (rewrite Hd; apply andb_false_r).
    rewrite useFrame_blocked by exact Hb. cbn [fst].
    destruct (IH {| isDragging := isDragging s;
                    isClickedDown := isClickedDown s;
                    angle := angle s;
                    velocity := velocity s;
                    amplitude := detectGravityOff gravityOn s;
                    lastGravityOn := gravityOn;
                    rotation_z := rotation_z s |} Hd) as (H1 & H2 & H3).
    cbn zeta. auto.
Qed.

(** C4: evaluation of the code in its initial state.  The component starts
    with [isDragging] true and [isClickedDown] false, so the guard
    [isSwinging && !isDragging] of the frame callback is false: whatever the
    two props are, a frame in the initial state emits no sample, and no
    number of frames moves angle or velocity; the guard only opens after a
    pointer release. *)
Theorem C4_initial_state_is_dragging :
  isDragging initialState = true
  /\ isClickedDown initialState = false
  /\ (forall (isSwinging gravityOn : bool) (now : Z),
      snd (useFrame isSwinging gravityOn now initialState) = None)
  /\ (forall (isSwinging gravityOn : bool) (clock : list Z),
      let s' := runFrames isSwinging gravityOn clock initialState in
      isDragging s' = true /\ angle s' = PI / 2 /\ velocity s' = 0)
  /\ isDragging (handlePointerUp initialState) = false.
Proof.
  split; [reflexivity | split; [reflexivity | split; [| split]]].
  - intros isSwinging gravityOn now.
    rewrite useFrame_blocked by (cbn; apply andb_false_r). reflexivity.
  - intros isSwinging gravityOn clock.
    apply (runFrames_held isSwinging gravityOn clock initialState).
    reflexivity.
  - reflexivity.
Qed.

(** The amplitude after any event of the scene.  A pointer press within
    the grab radius stores |pointer angle|, the angle it also stores as the
    new angle; a frame with [lastGravityOn] true and [gravityOn] false
    stores the current angle; every other event, and every frame with
    gravity on, leaves the amplitude as it was. *)
Lemma amplitude_after_event :
  (forall (sc : PendulumScene.State) (ev : PendulumScene.Event),
    amplitude (PendulumScene.pendulum (PendulumScene.step sc ev)) =
    match ev with
    | PendulumScene.PointerDown event =>
        if Rlt_dec (distanceTo (intersectPoint event) sphere_position) 0.5
        then Rabs (calculateAngleFromMouse event)
        else amplitude (PendulumScene.pendulum sc)
    | PendulumScene.Frame now =>
        if lastGravityOn (PendulumScene.pendulum sc)
           && negb (PendulumScene.gravityOn sc)
        then angle (PendulumScene.pendulum sc)
        else amplitude (PendulumScene.pendulum sc)
    | _ => amplitude (PendulumScene.pendulum sc)
    end)
  /\ (forall (event : PointerEvent) (s : State),
      if Rlt_dec (distanceTo (intersectPoint event) sphere_position) 0.5
      then angle (handlePointerDown event s) = calculateAngleFromMouse event
           /\ amplitude (handlePointerDown event s)
              = Rabs (angle (handlePointerDown event s))
      else handlePointerDown event s = s)
  /\ (forall (isSwinging : bool) (now : Z) (s : State),
      amplitude (fst (useFrame isSwinging true now s)) = amplitude s).
Proof.
  split; [| split].
  - intros sc [| | event | event | | now];
      cbn [PendulumScene.step PendulumScene.withPendulum
           PendulumScene.pendulum]; try reflexivity.
    + unfold handlePointerDown. cbn zeta.
      destruct (Rlt_dec _ _); reflexivity.
    + unfold handlePointerMove.
      destruct (isDragging _ && isClickedDown _); reflexivity.
    + fold (PendulumScene.step sc (PendulumScene.Frame now)).
      rewrite pendulum_after_frame, amplitude_after_frame.
      unfold detectGravityOff.
      destruct (lastGravityOn _), (PendulumScene.gravityOn sc); reflexivity.
  - intros event s. unfold handlePointerDown. cbn zeta.
    destruct (Rlt_dec _ _); [split|]; reflexivity.
  - intros isSwinging now s. rewrite amplitude_after_frame.
    unfold detectGravityOff. destruct (lastGravityOn s); reflexivity.
Qed.

End InteractionClaims.

(** ** Grabbing and dragging the bob *)

Section Grabbing.

Import THREE Pendulum.

(** C6: evaluation of the code where the grab test goes wrong.  After the
    first example session the pivot is rotated by PI/2 and the bob is drawn
    at (2, 0, 0).  A press whose ray meets the plane exactly there is at
    distance 0 from the drawn bob, yet [handlePointerDown] leaves the state
    unchanged: it measures the distance to [sphere.current.position], the
    position of the sphere inside the rotated group, which stays
    (0, -2, 0). *)
Theorem C6_grab_test_ignores_rotation :
  let s := PendulumScene.pendulum
             (PendulumScene.run PendulumScene.initialState
                PendulumScene.dragToHorizontal) in
  let event := pointerAt 2 0 in
  renderedBobPosition s = intersectPoint event
  /\ distanceTo (intersectPoint event) (renderedBobPosition s) < 0.5
  /\ ~ distanceTo (intersectPoint event) sphere_position < 0.5
  /\ handlePointerDown event s = s
  /\ isDragging (handlePointerDown event s) = false.
Proof.
  cbn zeta. rewrite dragToHorizontal_scene. cbn [PendulumScene.pendulum].
  assert (Hbob : renderedBobPosition
                   {| isDragging := false; isClickedDown := false;
                      angle := PI / 2; velocity := 0; amplitude := PI / 2;
                      lastGravityOn := false; rotation_z := PI / 2 |}
                 = intersectPoint (pointerAt 2 0)).
  { unfold renderedBobPosition, localToWorld, sphere_position, length,
      pointerAt.
    cbn [rotation_z x y z intersectPoint].
    rewrite cos_PI2, sin_PI2. f_equal; ring. }
  assert (Hfar : ~ distanceTo (intersectPoint (pointerAt 2 0))
                     sphere_position < 0.5).
  { unfold distanceTo, sphere_position, length, pointerAt.
    cbn [x y z intersectPoint]. apply sqrt_not_below; lra. }
  split; [exact Hbob | split; [| split; [exact Hfar | split]]].
  - rewrite Hbob, distanceTo_self. lra.
  - apply handlePointerDown_far. exact Hfar.
  - rewrite handlePointerDown_far by exact Hfar. reflexivity.
Qed.

(** C7 as stated fails: for the pivot at rotation 0, which lies in
    [-PI, PI], the bob is drawn straight below the pivot and its pointer
    angle is -PI/2, more than 1 away from 0. *)
Lemma C7_round_trip_counterexample :
  - PI <= 0 <= PI
  /\ calculateAngleFromMouse
       (mkPointerEvent (localToWorld 0 sphere_position)) = - (PI / 2)
  /\ 1 < Rabs (calculateAngleFromMouse
                 (mkPointerEvent (localToWorld 0 sphere_position)) - 0).
Proof.
  pose proof PI_RGT_0 as Hpi. pose proof PI2_1 as H1.
  assert (E : calculateAngleFromMouse
                (mkPointerEvent (localToWorld 0 sphere_position))
              = - (PI / 2)).
  { rewrite calculateAngleFromMouse_bob by lra.
    destruct (Rlt_dec (- (PI / 2)) 0); lra. }
  split; [lra | split; [exact E |]].
  rewrite E. unfold Rabs. destruct (Rcase_abs _); lra.
Qed.

(** C7, amended: on real numbers, for every rotation theta of the pivot
    in [-PI, PI], the pointer angle of the drawn bob is a quarter turn
    behind theta; the PI/2 that [handlePointerMove] adds gives back theta
    when -PI/2 < theta and theta + 2 PI (the same rotation) otherwise, and
    that value is what a drag to the drawn bob stores as angle and as
    rotation of the pivot. *)
Theorem C7_pointer_angle_of_bob (theta : R)
  (Hrange : - PI <= theta <= PI) :
  let event := mkPointerEvent (localToWorld theta sphere_position) in
  calculateAngleFromMouse event + PI / 2
    = (if Rlt_dec (- (PI / 2)) theta then theta else theta + 2 * PI)
  /\ (forall s : State, isDragging s = true -> isClickedDown s = true ->
      angle (handlePointerMove event s)
        = calculateAngleFromMouse event + PI / 2
      /\ rotation_z (handlePointerMove event s)
        = calculateAngleFromMouse event + PI / 2).
Proof.
  cbn zeta. split.
  - rewrite calculateAngleFromMouse_bob by exact Hrange.
    destruct (Rlt_dec (- (PI / 2)) theta); lra.
  - intros s Hd Hc. unfold handlePointerMove. rewrite Hd, Hc.
    split; reflexivity.
Qed.

Lemma C7_pointer_angle_of_bob_witness :
  let event := mkPointerEvent (localToWorld (PI / 4) sphere_position) in
  calculateAngleFromMouse event + PI / 2
  = (if Rlt_dec (- (PI / 2)) (PI / 4) then PI / 4 else PI / 4 + 2 * PI)
  /\ angle (handlePointerMove event pressedState)
     = calculateAngleFromMouse event + PI / 2
  /\ rotation_z (handlePointerMove event pressedState)
     = calculateAngleFromMouse event + PI / 2.
Proof.
  assert (Hrange : - PI <= PI / 4 <= PI) by (pose proof PI_RGT_0; lra).
  pose proof (C7_pointer_angle_of_bob (PI / 4) Hrange) as [Hback Hmove].
  split; [exact Hback |].
  apply (Hmove pressedState); reflexivity.
Defined.

(** C8 as stated fails: the second example session leaves the amplitude
    at -PI/4, so that [-amplitude, amplitude] is [PI/4, -PI/4] and holds
    no angle at all; the next frame, a gravity-off frame, keeps that
    amplitude and produces an angle all the same. *)
Lemma C8_negative_amplitude_counterexample :
  let sc := PendulumScene.run PendulumScene.initialState
              PendulumScene.dragToLowerLeft in
  let sc' := PendulumScene.step sc (PendulumScene.Frame 1000) in
  let a := amplitude (PendulumScene.pendulum sc) in
  a = - (PI / 4)
  /\ amplitude (PendulumScene.pendulum sc') = a
  /\ angle (PendulumScene.pendulum sc') = a * sin (1000 * 0.002)
  /\ ~ (- a <= angle (PendulumScene.pendulum sc') <= a).
Proof.
  cbn zeta. rewrite pendulum_after_frame, dragToLowerLeft_scene.
  cbn [PendulumScene.pendulum PendulumScene.isSwinging
       PendulumScene.gravityOn].
  rewrite useFrame_gravity_off by reflexivity.
  cbn [fst angle amplitude isDragging lastGravityOn].
  pose proof PI_RGT_0.
  repeat split. intros [Hlo Hhi]. lra.
Qed.

End Grabbing.

(** ** The energy history *)

Section EnergyHistory.

Import PendulumScene.

Lemma nth_pred_length_last {A : Type} (l : list A) (d : A) :
  nth (List.length l - 1) l d = last l d.
Proof.
  induction l as [| a l IH]; [reflexivity |].
  destruct l as [| b l]; [reflexivity |].
  change (last (a :: b :: l) d) with (last (b :: l) d).
  rewrite <- IH. cbn [List.length].
  replace (S (S (List.length l)) - 1)%nat with (S (S (List.length l) - 1))
    by lia.
  reflexivity.
Qed.

Lemma next_time_counts (n : nat) (energy : Energy.Sample) (d : EnergyData) :
  time d = map Z.of_nat (seq 0 n) ->
  time (handleEnergyUpdate energy d) = map Z.of_nat (seq 0 (S n)).
Proof.
  intros Ht. unfold handleEnergyUpdate. cbn [time].
  rewrite Ht, length_map, length_seq, seq_S, map_app. cbn [map Nat.add].
  f_equal. f_equal.
  destruct n as [| n]; [reflexivity |].
  cbn [Nat.eqb].
  change 0%Z with (Z.of_nat 0). rewrite map_nth, seq_nth by lia.
  lia.
Qed.

Lemma appendSamples_times (samples : list Energy.Sample) :
  forall (n : nat) (d : EnergyData),
  time d = map Z.of_nat (seq 0 n) ->
  time (appendSamples samples d)
  = map Z.of_nat (seq 0 (n + List.length samples)).
Proof.
  induction samples as [| energy samples IH]; intros n d Ht.
  - cbn. rewrite Nat.add_0_r. exact Ht.
  - cbn [appendSamples fold_left List.length].
    fold (appendSamples samples (handleEnergyUpdate energy d)).
    rewrite (IH (S n)) by (apply next_time_counts; exact Ht).
    do 2 f_equal. lia.
Qed.

Lemma handleEnergyUpdate_length (energy : Energy.Sample) (d : EnergyData)
  (n : nat) :
  seriesLength d n -> seriesLength (handleEnergyUpdate energy d) (S n).
Proof.
  intros (Hm & Hp & Hk & Ht). unfold seriesLength, handleEnergyUpdate.
  cbn [mechanicalEnergy potentialEnergy kineticEnergy time].
  rewrite !length_app. cbn [List.length]. lia.
Qed.

Lemma appendSamples_length (samples : list Energy.Sample) :
  forall (n : nat) (d : EnergyData),
  seriesLength d n ->
  seriesLength (appendSamples samples d) (n + List.length samples).
Proof.
  induction samples as [| energy samples IH]; intros n d Hd.
  - cbn. rewrite Nat.add_0_r. exact Hd.
  - cbn [appendSamples fold_left List.length].
    fold (appendSamples samples (handleEnergyUpdate energy d)).
    replace (n + S (List.length samples))%nat
      with (S n + List.length samples)%nat by lia.
    apply IH, handleEnergyUpdate_length, Hd.
Qed.

(** An event either leaves the history alone or appends one sample. *)
Lemma step_energyData (sc : State) (ev : Event) :
  energyData (step sc ev) = energyData sc
  \/ exists energy : Energy.Sample,
       energyData (step sc ev) = handleEnergyUpdate energy (energyData sc).
Proof.
  destruct ev as [| | event | event | | now]; try (left; reflexivity).
  unfold step. destruct (Pendulum.useFrame _ _ _ _) as [p [energy |]].
  - right. exists energy. reflexivity.
  - left. reflexivity.
Qed.

Lemma run_series_aligned (evs : list Event) :
  forall sc : State,
  (exists n, seriesLength (energyData sc) n) ->
  exists n, seriesLength (energyData (run sc evs)) n.
Proof.
  induction evs as [| ev evs IH]; intros sc [n Hn].
  - exists n. exact Hn.
  - cbn [run fold_left]. fold (run (step sc ev) evs). apply IH.
    destruct (step_energyData sc ev) as [E | [energy E]]; rewrite E.
    + exists n. exact Hn.
    + exists (S n). apply handleEnergyUpdate_length, Hn.
Qed.

(** C9: an appended sample gets the time of the last sample plus 1, or 0
    when the history is empty; appending n samples to the empty history
    gives the times 0, 1, ..., n-1, and three samples give [0; 1; 2],
    whatever the samples and whenever they arrive. *)
Theorem C9_sample_times :
  (forall (energy : Energy.Sample) (d : EnergyData),
    time (handleEnergyUpdate energy d) =
    time d ++ [match time d with
               | [] => 0
               | _ :: _ => last (time d) 0 + 1
               end]%Z)
  /\ (forall samples : list Energy.Sample,
      time (appendSamples samples initialEnergyData)
      = map Z.of_nat (seq 0 (List.length samples)))
  /\ (forall e1 e2 e3 : Energy.Sample,
      time (appendSamples [e1; e2; e3] initialEnergyData) = [0; 1; 2]%Z).
Proof.
  split; [| split].
  - intros energy d. unfold handleEnergyUpdate. cbn [time].
    rewrite nth_pred_length_last.
    destruct (time d); reflexivity.
  - intros samples. apply (appendSamples_times samples 0). reflexivity.
  - intros e1 e2 e3. reflexivity.
Qed.

(** C10: an append extends each of the four series by exactly one element
    at its end and keeps the elements already there; hence the four series
    have the same length in every state the scene can reach, and after n
    appends to the empty history each has length n. *)
Theorem C10_series_grow_together :
  (forall (energy : Energy.Sample) (d : EnergyData),
    mechanicalEnergy (handleEnergyUpdate energy d)
      = mechanicalEnergy d ++ [Energy.mechanicalEnergy energy]
    /\ potentialEnergy (handleEnergyUpdate energy d)
      = potentialEnergy d ++ [Energy.potentialEnergy energy]
    /\ kineticEnergy (handleEnergyUpdate energy d)
      = kineticEnergy d ++ [Energy.kineticEnergy energy]
    /\ exists t : Z, time (handleEnergyUpdate energy d) = time d ++ [t])
  /\ (forall (sc : State) (ev : Event),
      energyData (step sc ev) = energyData sc
      \/ exists energy : Energy.Sample,
           energyData (step sc ev)
           = handleEnergyUpdate energy (energyData sc))
  /\ (forall evs : list Event,
      exists n : nat, seriesLength (energyData (run initialState evs)) n)
  /\ (forall samples : list Energy.Sample,
      seriesLength (appendSamples samples initialEnergyData)
        (List.length samples)).
Proof.
  split; [| split; [| split]].
  - intros energy d. repeat split. eexists. reflexivity.
  - exact step_energyData.
  - intros evs. apply run_series_aligned. exists 0%nat. repeat split.
  - intros samples. apply (appendSamples_length samples 0). repeat split.
Qed.

End EnergyHistory.


(** ** More on the pointer angle *)

Section PointerAngle.

Import THREE Pendulum.

Lemma atan_nonpos (t : R) : t <= 0 -> atan t <= 0.
Proof.
  intros [Hlt | Heq].
  - rewrite <- atan_0. left. apply atan_increasing. exact Hlt.
  - subst t. rewrite atan_0. lra.
Qed.

Lemma atan_pos (t : R) : 0 < t -> 0 < atan t.
Proof. intros H. rewrite <- atan_0. apply atan_increasing. exact H. Qed.

Lemma atan_neg (t : R) : t < 0 -> atan t < 0.
Proof. intros H. rewrite <- atan_0. apply atan_increasing. exact H. Qed.

Lemma quotient_neg_pos (a b : R) : a < 0 -> 0 < b -> a / b < 0.
Proof.
  intros Ha Hb. unfold Rdiv.
  pose proof (Rinv_0_lt_compat b Hb). nra.
Qed.

Lemma quotient_neg_neg (a b : R) : a < 0 -> b < 0 -> 0 < a / b.
Proof.
  intros Ha Hb. unfold Rdiv.
  pose proof (Rinv_lt_0_compat b Hb). nra.
Qed.

Lemma quotient_nonneg_neg (a b : R) : 0 <= a -> b < 0 -> a / b <= 0.
Proof.
  intros Ha Hb. unfold Rdiv.
  pose proof (Rinv_lt_0_compat b Hb). nra.
Qed.

Lemma atan2_range (b a : R) : - PI < atan2 b a <= PI.
Proof.
  pose proof PI_RGT_0 as Hpi. unfold atan2.
  destruct (Rlt_dec 0 a) as [Hpos | Hnpos].
  - pose proof (atan_bound (b / a)). lra.
  - destruct (Rlt_dec a 0) as [Hneg | Hnneg].
    + pose proof (atan_bound (b / a)) as Hb.
      destruct (Rle_dec 0 b) as [Hy | Hy].
      * pose proof (atan_nonpos (b / a) (quotient_nonneg_neg b a Hy Hneg)).
        lra.
      * assert (Hb' : b < 0) by lra.
        pose proof (atan_pos (b / a) (quotient_neg_neg b a Hb' Hneg)).
        lra.
    + repeat split_comparison.
Qed.

Lemma atan2_below_axis (b a : R) : b < 0 -> - PI < atan2 b a < 0.
Proof.
  intros Hb. pose proof PI_RGT_0 as Hpi. unfold atan2.
  destruct (Rlt_dec 0 a) as [Hpos | Hnpos].
  - pose proof (atan_bound (b / a)).
    pose proof (atan_neg (b / a) (quotient_neg_pos b a Hb Hpos)). lra.
  - destruct (Rlt_dec a 0) as [Hneg | Hnneg].
    + pose proof (atan_bound (b / a)).
      pose proof (atan_pos (b / a) (quotient_neg_neg b a Hb Hneg)).
      destruct (Rle_dec 0 b); lra.
    + repeat split_comparison.
Qed.

(** The divisor [normalize] uses is positive, whatever the vector. *)
Lemma normalize_divisor_pos (v : Vector3) :
  0 < (if Req_dec_T (THREE.length v) 0 then 1 else THREE.length v).
Proof.
  destruct (Req_dec_T (THREE.length v) 0) as [E | N]; [lra |].
  pose proof (sqrt_pos (x v * x v + y v * y v + z v * z v)) as Hp.
  unfold THREE.length in *. lra.
Qed.

Lemma sqrt_below (X b : R) : 0 <= X -> sqrt X < b -> X < b * b.
Proof.
  intros HX Hlt.
  pose proof (sqrt_sqrt X HX) as Hs. pose proof (sqrt_pos X) as Hp. nra.
Qed.

(** X1: whatever the pointer event, the angle [calculateAngleFromMouse]
    returns lies in (-PI, PI]. *)
Theorem X1_pointer_angle_range (event : PointerEvent) :
  - PI < calculateAngleFromMouse event <= PI.
Proof. unfold calculateAngleFromMouse. cbn zeta. apply atan2_range. Qed.

(** X2: a pointer whose ray meets the plane exactly at the pivot has no
    direction; [normalize] then divides by 1 and the angle is 0, so a drag
    to the pivot draws the pendulum at rotation PI/2. *)
Theorem X2_pointer_at_pivot :
  calculateAngleFromMouse (mkPointerEvent pivotPosition) = 0
  /\ (forall s : State, isDragging s = true -> isClickedDown s = true ->
      rotation_z (handlePointerMove (mkPointerEvent pivotPosition) s)
      = PI / 2).
Proof.
  assert (E : calculateAngleFromMouse (mkPointerEvent pivotPosition) = 0).
  { unfold calculateAngleFromMouse, normalize, subVectors, THREE.length,
      pivotPosition.
    cbn [intersectPoint x y z].
    replace ((0 - 0) * (0 - 0) + (0 - 0) * (0 - 0) + (0 - 0) * (0 - 0))
      with 0 by ring.
    rewrite sqrt_0.
    destruct (Req_dec_T 0 0) as [_ | N]; [| contradiction].
    unfold atan2. repeat split_comparison. }
  split; [exact E |].
  intros s Hd Hc. unfold handlePointerMove. rewrite Hd, Hc.
  cbn [andb rotation_z]. rewrite E. lra.
Qed.

Lemma X2_pointer_at_pivot_witness :
  rotation_z (handlePointerMove (mkPointerEvent pivotPosition) pressedState)
  = PI / 2.
Proof.
  apply (proj2 X2_pointer_at_pivot pressedState); reflexivity.
Defined.

(** X3: while dragging, a pointer move to the point at distance r > 0 and
    direction phi from the pivot draws the bob on the ray from the pivot
    through the pointer, at distance [length] from the pivot. *)
Theorem X3_drag_follows_pointer (s : State) (r phi : R)
  (Hdrag : isDragging s = true) (Hclick : isClickedDown s = true)
  (Hr : 0 < r) (Hphi : - PI < phi <= PI) :
  renderedBobPosition
    (handlePointerMove
       (mkPointerEvent (mkVector3 (r * cos phi) (r * sin phi) 0)) s)
  = mkVector3 (Pendulum.length * cos phi) (Pendulum.length * sin phi) 0.
Proof.
  unfold handlePointerMove. rewrite Hdrag, Hclick. cbn [andb].
  unfold renderedBobPosition. cbn [rotation_z].
  rewrite calculateAngleFromMouse_polar by assumption.
  rewrite rendered_bob_polar.
  replace (phi + PI / 2 - PI / 2) with phi by ring. reflexivity.
Qed.

Lemma X3_drag_follows_pointer_witness :
  renderedBobPosition
    (handlePointerMove
       (mkPointerEvent (mkVector3 (3 * cos 0) (3 * sin 0) 0)) pressedState)
  = mkVector3 (Pendulum.length * cos 0) (Pendulum.length * sin 0) 0.
Proof.
  apply (X3_drag_follows_pointer pressedState 3 0); try reflexivity.
  - lra.
  - pose proof PI_RGT_0. lra.
Defined.

(** X4: a press that passes the grab test lies below the pivot, so the
    angle it stores is negative, strictly between -PI and 0, and the
    amplitude it stores is the opposite of that angle. *)
Theorem X4_accepted_press_angle (event : PointerEvent) (s : State)
  (Hnear : distanceTo (intersectPoint event) sphere_position < 0.5) :
  - PI < angle (handlePointerDown event s) < 0
  /\ amplitude (handlePointerDown event s)
     = - angle (handlePointerDown event s).
Proof.
  rewrite handlePointerDown_near by exact Hnear. cbn [angle amplitude].
  assert (Hy : y (intersectPoint event) < 0).
  { unfold distanceTo, sphere_position, Pendulum.length in Hnear.
    cbn [x y z] in Hnear.
    remember (x (intersectPoint event) - 0) as dx.
    remember (y (intersectPoint event) - - (2)) as dy.
    remember (z (intersectPoint event) - 0) as dz.
    pose proof (Rle_0_sqr dx) as Hx. pose proof (Rle_0_sqr dy) as Hdy.
    pose proof (Rle_0_sqr dz) as Hz. unfold Rsqr in Hx, Hdy, Hz.
    apply sqrt_below in Hnear; [| lra].
    destruct (Rlt_le_dec dy (1 / 2)) as [Hlt | Hge]; [lra |].
    assert (1 / 2 * (1 / 2) <= dy * dy) by nra. lra. }
  assert (Hangle : - PI < calculateAngleFromMouse event < 0).
  { unfold calculateAngleFromMouse, normalize. cbn zeta.
    apply atan2_below_axis. cbn [y].
    apply quotient_neg_pos; [| apply normalize_divisor_pos].
    unfold subVectors, pivotPosition. cbn [y]. lra. }
  split; [exact Hangle |].
  apply Rabs_left. lra.
Qed.

Lemma X4_accepted_press_angle_witness :
  - PI < angle (handlePointerDown (mkPointerEvent sphere_position)
                  initialState) < 0
  /\ amplitude (handlePointerDown (mkPointerEvent sphere_position)
                  initialState)
     = - angle (handlePointerDown (mkPointerEvent sphere_position)
                  initialState).
Proof.
  apply (X4_accepted_press_angle (mkPointerEvent sphere_position)
           initialState).
  cbn [intersectPoint]. rewrite distanceTo_self. lra.
Defined.

(** X5: a press that passes the grab test stores the pointer angle as it
    is and leaves the drawn rotation alone; a pointer move at the very same
    point then stores that angle plus PI/2, as angle and as drawn
    rotation. *)
Theorem X5_first_move_jumps (event : PointerEvent) (s : State)
  (Hnear : distanceTo (intersectPoint event) sphere_position < 0.5) :
  let pressed := handlePointerDown event s in
  let moved := handlePointerMove event pressed in
  rotation_z pressed = rotation_z s
  /\ angle moved = angle pressed + PI / 2
  /\ rotation_z moved = angle pressed + PI / 2.
Proof.
  cbn zeta. rewrite handlePointerDown_near by exact Hnear.
  unfold handlePointerMove. cbn [isDragging isClickedDown andb angle
                                  rotation_z].
  repeat split.
Qed.

Lemma X5_first_move_jumps_witness :
  let event := mkPointerEvent sphere_position in
  let pressed := handlePointerDown event initialState in
  let moved := handlePointerMove event pressed in
  rotation_z pressed = rotation_z initialState
  /\ angle moved = angle pressed + PI / 2
  /\ rotation_z moved = angle pressed + PI / 2.
Proof.
  apply (X5_first_move_jumps (mkPointerEvent sphere_position) initialState).
  cbn [intersectPoint]. rewrite distanceTo_self. lra.
Defined.

End PointerAngle.

(** ** More on the frame callback *)

Section FrameCallback.

Import Pendulum.

(** A property of the initial scene that every event keeps holds after
    every session. *)
Lemma run_invariant (P : PendulumScene.State -> Prop) :
  P PendulumScene.initialState ->
  (forall sc ev, P sc -> P (PendulumScene.step sc ev)) ->
  forall evs, P (PendulumScene.run PendulumScene.initialState evs).
Proof.
  intros Hinit Hstep evs. unfold PendulumScene.run.
  generalize PendulumScene.initialState Hinit.
  induction evs as [| ev evs IH]; intros sc Hsc; [exact Hsc |].
  cbn [fold_left]. apply IH, Hstep, Hsc.
Qed.

Lemma damped_step_bound (v a : R) :
  Rabs v <= 0.999 -> Rabs ((v + -0.001 * sin a) * 0.999) <= 0.999.
Proof.
  intros Hv. pose proof (SIN_bound a) as [Hlo Hhi].
  apply Rabs_le. unfold Rabs in Hv.
  destruct (Rcase_abs v); split; nra.
Qed.

Lemma useFrame_velocity_bound (isSwinging gravityOn : bool) (now : Z)
  (s : State) :
  Rabs (velocity s) <= 0.999 ->
  Rabs (velocity (fst (useFrame isSwinging gravityOn now s))) <= 0.999.
Proof.
  intros Hv. unfold useFrame.
  destruct (isSwinging && negb (isDragging s)), gravityOn;
    cbn [fst velocity]; try exact Hv.
  apply damped_step_bound, Hv.
Qed.

(** X6: in every state a session can reach, the angular velocity is at
    most 0.999 in absolute value: the damping factor caps what the constant
    0.001 can feed in, and a press resets the velocity to 0. *)
Theorem X6_velocity_bounded (evs : list PendulumScene.Event) :
  Rabs (velocity (PendulumScene.pendulum
                    (PendulumScene.run PendulumScene.initialState evs)))
  <= 0.999.
Proof.
  apply (run_invariant
           (fun sc => Rabs (velocity (PendulumScene.pendulum sc)) <= 0.999)).
  - cbn. rewrite Rabs_R0. lra.
  - intros sc [| | event | event | | now] Hsc;
      cbn [PendulumScene.step PendulumScene.withPendulum
           PendulumScene.pendulum]; try exact Hsc.
    + unfold handlePointerDown. cbn zeta.
      destruct (Rlt_dec _ _); [| exact Hsc].
      cbn [velocity]. rewrite Rabs_R0. lra.
    + unfold handlePointerMove.
      destruct (isDragging _ && isClickedDown _); exact Hsc.
    + fold (PendulumScene.step sc (PendulumScene.Frame now)).
      rewrite pendulum_after_frame.
      apply useFrame_velocity_bound, Hsc.
Qed.

Lemma runFrames_gravity_off_amplitude (clock : list Z) :
  forall s : State, lastGravityOn s = false ->
  amplitude (runFrames true false clock s) = amplitude s.
Proof.
  induction clock as [| now clock IH]; intros s Hl; [reflexivity |].
  unfold runFrames. cbn [fold_left].
  fold (runFrames true false clock (fst (useFrame true false now s))).
  rewrite IH.
  - rewrite amplitude_after_frame. unfold detectGravityOff.
    rewrite Hl. reflexivity.
  - unfold useFrame.
    destruct (true && negb (isDragging s)); reflexivity.
Qed.

(** X8: the first frame after gravity has gone off still uses the old
    amplitude for its angle and captures the angle it found as the new
    amplitude; the following frame swings with the captured angle, and no
    later gravity-off frame changes the amplitude again. *)
Theorem X8_gravity_off_capture (t1 t2 : Z) (clock : list Z) (s : State)
  (Hidle : isDragging s = false) (Hlast : lastGravityOn s = true) :
  let s1 := fst (useFrame true false t1 s) in
  let s2 := fst (useFrame true false t2 s1) in
  angle s1 = amplitude s * sin (IZR t1 * 0.002)
  /\ amplitude s1 = angle s
  /\ angle s2 = angle s * sin (IZR t2 * 0.002)
  /\ amplitude (runFrames true false clock s1) = angle s.
Proof.
  cbn zeta. rewrite (useFrame_gravity_off t1 s Hidle). rewrite Hlast.
  cbn [fst angle amplitude].
  rewrite useFrame_gravity_off by reflexivity.
  rewrite runFrames_gravity_off_amplitude by reflexivity.
  cbn [fst angle amplitude]. repeat split.
Qed.

Lemma X8_gravity_off_capture_witness :
  let s1 := fst (useFrame true false 16 restState) in
  let s2 := fst (useFrame true false 33 s1) in
  angle s1 = PI / 2 * sin (16 * 0.002)
  /\ amplitude s1 = 0
  /\ angle s2 = 0 * sin (33 * 0.002)
  /\ amplitude (runFrames true false [50; 66]%Z s1) = 0.
Proof.
  apply (X8_gravity_off_capture 16 33 [50; 66]%Z restState); reflexivity.
Defined.

Lemma step_frame_blocked (sc : PendulumScene.State) (now : Z) :
  PendulumScene.isSwinging sc && negb (isDragging (PendulumScene.pendulum sc))
  = false ->
  PendulumScene.step sc (PendulumScene.Frame now) =
  {| PendulumScene.isSwinging := PendulumScene.isSwinging sc;
     PendulumScene.gravityOn := PendulumScene.gravityOn sc;
     PendulumScene.energyData := PendulumScene.energyData sc;
     PendulumScene.pendulum :=
       fst (useFrame (PendulumScene.isSwinging sc) (PendulumScene.gravityOn sc)
              now (PendulumScene.pendulum sc)) |}.
Proof.
  intros H. unfold PendulumScene.step.
  rewrite useFrame_blocked by exact H. reflexivity.
Qed.

(** X9: while the simulation is paused or the pendulum is held, frames
    move nothing: after any number of them the flags, the angle, the
    velocity, the drawn rotation and the energy history are as before. *)
Theorem X9_blocked_frames_move_nothing (clock : list Z) :
  forall sc : PendulumScene.State,
  PendulumScene.isSwinging sc && negb (isDragging (PendulumScene.pendulum sc))
  = false ->
  let sc' := PendulumScene.run sc (map PendulumScene.Frame clock) in
  PendulumScene.isSwinging sc' = PendulumScene.isSwinging sc
  /\ PendulumScene.gravityOn sc' = PendulumScene.gravityOn sc
  /\ PendulumScene.energyData sc' = PendulumScene.energyData sc
  /\ isDragging (PendulumScene.pendulum sc')
     = isDragging (PendulumScene.pendulum sc)
  /\ isClickedDown (PendulumScene.pendulum sc')
     = isClickedDown (PendulumScene.pendulum sc)
  /\ angle (PendulumScene.pendulum sc') = angle (PendulumScene.pendulum sc)
  /\ velocity (PendulumScene.pendulum sc')
     = velocity (PendulumScene.pendulum sc)
  /\ rotation_z (PendulumScene.pendulum sc')
     = rotation_z (PendulumScene.pendulum sc).
Proof.
  induction clock as [| now clock IH]; intros sc Hb.
  - cbn. repeat split.
  - cbn [map]. rewrite run_cons. cbn zeta.
    assert (Hstep := step_frame_blocked sc now Hb).
    rewrite useFrame_blocked in Hstep by exact Hb. cbn [fst] in Hstep.
    rewrite Hstep.
    match goal with
    | |- context [PendulumScene.run ?next _] =>
        specialize (IH next Hb); cbn zeta in IH;
        destruct IH as (H1 & H2 & H3 & H4 & H5 & H6 & H7 & H8)
    end.
    rewrite H1, H2, H3, H4, H5, H6, H7, H8. repeat split.
Qed.

Lemma X9_blocked_frames_move_nothing_witness :
  let sc' := PendulumScene.run PendulumScene.initialState
               (map PendulumScene.Frame [0; 16; 33]%Z) in
  angle (PendulumScene.pendulum sc') = PI / 2
  /\ PendulumScene.energyData sc' = PendulumScene.initialEnergyData.
Proof.
  pose proof (X9_blocked_frames_move_nothing [0; 16; 33]%Z
                PendulumScene.initialState eq_refl)
    as (_ & _ & H3 & _ & _ & H6 & _).
  split; [exact H6 | exact H3].
Defined.

End FrameCallback.

(** ** More on the energy history and the chart *)

Section HistoryAndChart.

Import PendulumScene.

Lemma emitted_sample_wellFormed (isSwinging gravityOn : bool) (now : Z)
  (s : Pendulum.State) (energy : Energy.Sample) :
  snd (Pendulum.useFrame isSwinging gravityOn now s) = Some energy ->
  Chart.wellFormed (Energy.mechanicalEnergy energy)
    (Energy.potentialEnergy energy) (Energy.kineticEnergy energy).
Proof.
  unfold Pendulum.useFrame.
  destruct (isSwinging && negb (Pendulum.isDragging s)), gravityOn;
    cbn [snd]; try discriminate.
  intros E. injection E as <-.
  cbn [Energy.mechanicalEnergy Energy.potentialEnergy Energy.kineticEnergy].
  unfold Chart.wellFormed, Pendulum.length.
  match goal with
  | |- context [cos ?a] => pose proof (COS_bound a) as [Hlo Hhi]
  end.
  match goal with
  | |- context [0.5 * (?b * (?b * 1))] =>
      pose proof (Rle_0_sqr b) as Hsq; unfold Rsqr in Hsq
  end.
  repeat split; lra.
Qed.

(** What an event does to the history, with the sample it appends known
    to come from the frame callback. *)
Lemma step_energyData_emitted (sc : State) (ev : Event) :
  energyData (step sc ev) = energyData sc
  \/ exists energy : Energy.Sample,
       Chart.wellFormed (Energy.mechanicalEnergy energy)
         (Energy.potentialEnergy energy) (Energy.kineticEnergy energy)
       /\ energyData (step sc ev) = handleEnergyUpdate energy (energyData sc).
Proof.
  destruct ev as [| | event | event | | now]; try (left; reflexivity).
  unfold step.
  destruct (Pendulum.useFrame (isSwinging sc) (gravityOn sc) now (pendulum sc))
    as [p [energy |]] eqn:E.
  - right. exists energy. split; [| reflexivity].
    apply (emitted_sample_wellFormed (isSwinging sc) (gravityOn sc) now
             (pendulum sc)).
    rewrite E. reflexivity.
  - left. reflexivity.
Qed.

Lemma combine_snoc {A B : Type} (xs : list A) (ys : list B) (a : A) (b : B) :
  List.length xs = List.length ys ->
  combine (xs ++ [a]) (ys ++ [b]) = combine xs ys ++ [(a, b)].
Proof.
  revert ys. induction xs as [| x xs IH]; intros [| y ys] Hlen;
    try discriminate; [reflexivity |].
  cbn [app combine]. rewrite IH by (cbn in Hlen; lia). reflexivity.
Qed.

Lemma rows_handleEnergyUpdate (energy : Energy.Sample) (d : EnergyData)
  (n : nat) :
  seriesLength d n ->
  Chart.rows (handleEnergyUpdate energy d)
  = Chart.rows d ++ [(Energy.mechanicalEnergy energy,
                      (Energy.potentialEnergy energy,
                       Energy.kineticEnergy energy))].
Proof.
  intros (Hm & Hp & Hk & Ht). unfold Chart.rows, handleEnergyUpdate.
  cbn [mechanicalEnergy potentialEnergy kineticEnergy].
  rewrite (combine_snoc (potentialEnergy d) (kineticEnergy d))
    by congruence.
  rewrite combine_snoc; [reflexivity |].
  rewrite length_combine, Hm, Hp, Hk. lia.
Qed.

(** X10: in every state a session can reach, every row of the history is
    a sample as the frame callback computes it: the mechanical energy is the
    kinetic plus the potential energy, the kinetic energy is not negative and
    the potential energy lies between 0 and 0.004. *)
Theorem X10_history_rows_wellFormed (evs : list Event) :
  Forall (fun row => Chart.wellFormed (fst row) (fst (snd row))
                       (snd (snd row)))
    (Chart.rows (energyData (run initialState evs))).
Proof.
  apply (run_invariant
           (fun sc =>
              (exists n, seriesLength (energyData sc) n)
              /\ Forall (fun row => Chart.wellFormed (fst row) (fst (snd row))
                                      (snd (snd row)))
                   (Chart.rows (energyData sc)))).
  - split; [exists 0%nat; repeat split | constructor].
  - intros sc ev [[n Hn] Hrows].
    destruct (step_energyData_emitted sc ev) as [E | (energy & Hwf & E)];
      rewrite E.
    + split; [exists n; exact Hn | exact Hrows].
    + split.
      * exists (S n). apply handleEnergyUpdate_length, Hn.
      * rewrite (rows_handleEnergyUpdate energy _ n Hn).
        apply Forall_app. split; [exact Hrows |].
        constructor; [exact Hwf | constructor].
Qed.

(** X11: in every state a session can reach, the time series counts the
    samples: with n samples in the history it is 0, 1, ..., n-1. *)
Theorem X11_history_times_count (evs : list Event) :
  let d := energyData (run initialState evs) in
  seriesLength d (List.length (kineticEnergy d))
  /\ time d = map Z.of_nat (seq 0 (List.length (kineticEnergy d))).
Proof.
  cbn zeta.
  assert (H : exists n, seriesLength (energyData (run initialState evs)) n
                        /\ time (energyData (run initialState evs))
                           = map Z.of_nat (seq 0 n)).
  { apply (run_invariant
             (fun sc => exists n, seriesLength (energyData sc) n
                                  /\ time (energyData sc)
                                     = map Z.of_nat (seq 0 n))).
    - exists 0%nat. repeat split.
    - intros sc ev (n & Hn & Ht).
      destruct (step_energyData sc ev) as [E | [energy E]]; rewrite E.
      + exists n. split; assumption.
      + exists (S n). split.
        * apply handleEnergyUpdate_length, Hn.
        * apply next_time_counts, Ht. }
  destruct H as (n & Hn & Ht).
  destruct Hn as (Hm & Hp & Hk & Hl). rewrite Hk.
  split; [repeat split; assumption | exact Ht].
Qed.

(** X12: the history is append-only over whole sessions: whatever the
    events, each of the four series of the state before is a prefix of the
    series after. *)
Theorem X12_history_append_only (evs : list Event) :
  forall sc : State,
  exists (ms ps ks : list R) (ts : list Z),
    mechanicalEnergy (energyData (run sc evs))
      = mechanicalEnergy (energyData sc) ++ ms
    /\ potentialEnergy (energyData (run sc evs))
      = potentialEnergy (energyData sc) ++ ps
    /\ kineticEnergy (energyData (run sc evs))
      = kineticEnergy (energyData sc) ++ ks
    /\ time (energyData (run sc evs)) = time (energyData sc) ++ ts.
Proof.
  induction evs as [| ev evs IH]; intros sc.
  - exists [], [], [], []. cbn. rewrite !app_nil_r. repeat split.
  - rewrite run_cons.
    destruct (IH (step sc ev)) as (ms & ps & ks & ts & Hm & Hp & Hk & Ht).
    rewrite Hm, Hp, Hk, Ht.
    destruct (step_energyData sc ev) as [E | [energy E]]; rewrite E.
    + exists ms, ps, ks, ts. repeat split.
    + unfold handleEnergyUpdate.
      cbn [mechanicalEnergy potentialEnergy kineticEnergy time].
      rewrite <- !app_assoc. do 4 eexists. repeat split.
Qed.

Lemma slice_last_app (xs : list R) (a : R) :
  Chart.slice_last (xs ++ [a]) = [a].
Proof.
  unfold Chart.slice_last. rewrite length_app. cbn [List.length].
  replace (List.length xs + 1 - 1)%nat with (List.length xs) by lia.
  rewrite skipn_app, skipn_all, Nat.sub_diag. reflexivity.
Qed.

Lemma orZero_Some (r : R) : Chart.orZero (Some r) = r.
Proof.
  unfold Chart.orZero. destruct (Req_dec_T r 0) as [E | _]; [| reflexivity].
  symmetry. exact E.
Qed.

Lemma latestEnergy_handleEnergyUpdate (energy : Energy.Sample)
  (d : EnergyData) :
  Chart.latestEnergy (handleEnergyUpdate energy d) = energy.
Proof.
  unfold Chart.latestEnergy, handleEnergyUpdate.
  cbn [mechanicalEnergy potentialEnergy kineticEnergy].
  rewrite !slice_last_app. cbn [nth_error]. rewrite !orZero_Some.
  destruct energy. reflexivity.
Qed.

(** X13: the chart shows three zeros while the history is empty, and after
    an append it shows the appended sample, whatever was in the history
    before; a frame with the simulation running, nobody dragging and gravity
    on therefore puts the energies of the angle and velocity it has just
    produced on the chart, mechanical first, then potential, then kinetic. *)
Theorem X13_chart_shows_latest (sc : State) (now : Z)
  (Hrun : isSwinging sc = true) (Hgravity : gravityOn sc = true)
  (Hidle : Pendulum.isDragging (pendulum sc) = false) :
  Chart.energyChartData initialEnergyData = [0; 0; 0]
  /\ (forall (energy : Energy.Sample) (d : EnergyData),
      Chart.energyChartData (handleEnergyUpdate energy d)
      = [Energy.mechanicalEnergy energy; Energy.potentialEnergy energy;
         Energy.kineticEnergy energy])
  /\ (let sc' := step sc (Frame now) in
      let kinetic :=
        0.5 * (Pendulum.length * Pendulum.velocity (pendulum sc')) ^ 2 in
      let potential :=
        0.001 * Pendulum.length * (1 - cos (Pendulum.angle (pendulum sc'))) in
      Chart.energyChartData (energyData sc')
      = [kinetic + potential; potential; kinetic]).
Proof.
  split; [| split].
  - unfold Chart.energyChartData, Chart.latestEnergy, Chart.slice_last.
    cbn. reflexivity.
  - intros energy d. unfold Chart.energyChartData. cbn zeta.
    rewrite latestEnergy_handleEnergyUpdate. reflexivity.
  - cbn zeta. unfold step. rewrite Hrun, Hgravity.
    rewrite useFrame_gravity_on by exact Hidle.
    cbn zeta. cbn [pendulum energyData Pendulum.angle Pendulum.velocity].
    unfold Chart.energyChartData. cbn zeta.
    rewrite latestEnergy_handleEnergyUpdate. reflexivity.
Qed.

Lemma X13_chart_shows_latest_witness :
  let sc := {| isSwinging := true; gravityOn := true;
               energyData := initialEnergyData;
               pendulum := Pendulum.restState |} in
  let sc' := step sc (Frame 16) in
  Chart.energyChartData (energyData sc')
  = [0.5 * (Pendulum.length * Pendulum.velocity (pendulum sc')) ^ 2
     + 0.001 * Pendulum.length * (1 - cos (Pendulum.angle (pendulum sc')));
     0.001 * Pendulum.length * (1 - cos (Pendulum.angle (pendulum sc')));
     0.5 * (Pendulum.length * Pendulum.velocity (pendulum sc')) ^ 2].
Proof.
  refine (proj2 (proj2 (X13_chart_shows_latest
                          {| isSwinging := true; gravityOn := true;
                             energyData := initialEnergyData;
                             pendulum := Pendulum.restState |} 16 _ _ _)));
    reflexivity.
Defined.

(** X14: in every state a session can reach, the three slices of the pie
    are consistent: the mechanical slice is the sum of the kinetic and the
    potential slice, no slice is negative and the potential slice is at most
    0.004. *)
Theorem X14_chart_slices_consistent (evs : list Event) :
  let latest := Chart.latestEnergy (energyData (run initialState evs)) in
  Chart.energyChartData (energyData (run initialState evs))
  = [Energy.kineticEnergy latest + Energy.potentialEnergy latest;
     Energy.potentialEnergy latest; Energy.kineticEnergy latest]
  /\ 0 <= Energy.kineticEnergy latest
  /\ 0 <= Energy.potentialEnergy latest <= 0.004
  /\ 0 <= Energy.mechanicalEnergy latest.
Proof.
  cbn zeta.
  assert (H : let latest := Chart.latestEnergy
                              (energyData (run initialState evs)) in
              Chart.wellFormed (Energy.mechanicalEnergy latest)
                (Energy.potentialEnergy latest)
                (Energy.kineticEnergy latest)).
  { apply (run_invariant
             (fun sc =>
                let latest := Chart.latestEnergy (energyData sc) in
                Chart.wellFormed (Energy.mechanicalEnergy latest)
                  (Energy.potentialEnergy latest)
                  (Energy.kineticEnergy latest))).
    - cbn. unfold Chart.wellFormed. repeat split; lra.
    - intros sc ev Hsc. cbn zeta in *.
      destruct (step_energyData_emitted sc ev) as [E | (energy & Hwf & E)];
        rewrite E; [exact Hsc |].
      rewrite latestEnergy_handleEnergyUpdate. exact Hwf. }
  cbn zeta in H. destruct H as (Hsum & Hk & Hp).
  unfold Chart.energyChartData. cbn zeta. rewrite Hsum at 1.
  repeat split; lra.
Qed.

End HistoryAndChart.

(** ** The scale and the pointer flags *)

Section ScaleAndFlags.

Import THREE Pendulum.

(** X15: the scale agrees with the way the pendulum is drawn: for every
    angle, the label of that angle is drawn on the ray from the pivot through
    the bob of a pendulum rotated by that angle, a quarter of the rod beyond
    the bob, at distance 2.5 from the pivot. *)
Theorem X15_scale_matches_pendulum (a : R) :
  let bob := localToWorld a sphere_position in
  let label := AngleScale.renderedLabelPosition Pendulum.length a in
  label = mkVector3 (1.25 * x bob) (1.25 * y bob) (1.25 * z bob)
  /\ THREE.length label = 2.5
  /\ THREE.length bob = 2.
Proof.
  cbn zeta.
  assert (Hlabel : AngleScale.renderedLabelPosition Pendulum.length a
                   = mkVector3 (2.5 * sin a) (- (2.5 * cos a)) 0).
  { unfold AngleScale.renderedLabelPosition, AngleScale.labelPosition,
      AngleScale.groupRotation, AngleScale.radius, localToWorld,
      Pendulum.length.
    cbn [x y z]. rewrite cos_neg, sin_neg, cos_PI2, sin_PI2.
    f_equal; lra. }
  assert (Hbob : localToWorld a sphere_position
                 = mkVector3 (2 * sin a) (- (2 * cos a)) 0).
  { unfold localToWorld, sphere_position, Pendulum.length. cbn [x y z].
    f_equal; lra. }
  rewrite Hlabel, Hbob. cbn [x y z].
  pose proof (sin2_cos2 a) as Hunit. unfold Rsqr in Hunit.
  split; [f_equal; lra | split].
  - unfold THREE.length. cbn [x y z].
    replace (2.5 * sin a * (2.5 * sin a)
             + - (2.5 * cos a) * - (2.5 * cos a) + 0 * 0)
      with (2.5 * 2.5) by nra.
    apply sqrt_square. lra.
  - unfold THREE.length. cbn [x y z].
    replace (2 * sin a * (2 * sin a) + - (2 * cos a) * - (2 * cos a) + 0 * 0)
      with (2 * 2) by nra.
    apply sqrt_square. lra.
Qed.

Lemma useFrame_flags (isSwinging gravityOn : bool) (now : Z) (s : State) :
  isDragging (fst (useFrame isSwinging gravityOn now s)) = isDragging s
  /\ isClickedDown (fst (useFrame isSwinging gravityOn now s))
     = isClickedDown s.
Proof.
  unfold useFrame.
  destruct (isSwinging && negb (isDragging s)), gravityOn; split; reflexivity.
Qed.

(** X16: in every state a session can reach, [isClickedDown] implies
    [isDragging]: the two flags differ only as they do in the initial state,
    dragging without a click, and once a press has been accepted or the
    pointer released they agree until the end of the session. *)
Theorem X16_clicked_implies_dragging (evs : list PendulumScene.Event) :
  let p := PendulumScene.pendulum
             (PendulumScene.run PendulumScene.initialState evs) in
  implb (isClickedDown p) (isDragging p) = true.
Proof.
  cbn zeta.
  apply (run_invariant
           (fun sc => implb (isClickedDown (PendulumScene.pendulum sc))
                        (isDragging (PendulumScene.pendulum sc)) = true)).
  - reflexivity.
  - intros sc [| | event | event | | now] Hsc;
      cbn [PendulumScene.step PendulumScene.withPendulum
           PendulumScene.pendulum]; try exact Hsc.
    + unfold handlePointerDown. cbn zeta.
      destruct (Rlt_dec _ _); [reflexivity | exact Hsc].
    + unfold handlePointerMove.
      destruct (isDragging _ && isClickedDown _); exact Hsc.
    + reflexivity.
    + fold (PendulumScene.step sc (PendulumScene.Frame now)).
      rewrite pendulum_after_frame.
      destruct (useFrame_flags (PendulumScene.isSwinging sc)
                  (PendulumScene.gravityOn sc) now (PendulumScene.pendulum sc))
        as [Hd Hc].
      rewrite Hd, Hc. exact Hsc.
Qed.

(** X17: pointer moves without a click are ignored: when [isClickedDown]
    is false, as in the initial state and after every release, no sequence of
    pointer moves changes the scene. *)
Theorem X17_moves_without_click_ignored
  (events : list PointerEvent) :
  forall sc : PendulumScene.State,
  isClickedDown (PendulumScene.pendulum sc) = false ->
  PendulumScene.run sc (map PendulumScene.PointerMove events) = sc.
Proof.
  induction events as [| event events IH]; intros sc Hc; [reflexivity |].
  cbn [map]. rewrite run_cons.
  assert (Hstep : PendulumScene.step sc (PendulumScene.PointerMove event) = sc).
  { cbn [PendulumScene.step]. unfold handlePointerMove.
    rewrite Hc, andb_false_r. destruct sc. reflexivity. }
  rewrite Hstep. apply IH, Hc.
Qed.

Lemma X17_moves_without_click_ignored_witness :
  PendulumScene.run PendulumScene.initialState
    (map PendulumScene.PointerMove [pointerAt 2 0; pointerAt (-1) (-1)])
  = PendulumScene.initialState.
Proof.
  apply (X17_moves_without_click_ignored
           [pointerAt 2 0; pointerAt (-1) (-1)] PendulumScene.initialState).
  reflexivity.
Defined.

End ScaleAndFlags.

(** ** The gravity flag and the amplitude *)

Section GravityFlag.

Import Pendulum.

Lemma last_cons {A : Type} (a d : A) (l : list A) :
  last (a :: l) d = last l a.
Proof.
  revert a d. induction l as [| b l IH]; intros a d; [reflexivity |].
  change (last (a :: b :: l) d) with (last (b :: l) d).
  rewrite !IH. reflexivity.
Qed.

Lemma gravityOn_after_frame (sc : PendulumScene.State) (now : Z) :
  PendulumScene.gravityOn (PendulumScene.step sc (PendulumScene.Frame now))
  = PendulumScene.gravityOn sc.
Proof.
  unfold PendulumScene.step.
  destruct (useFrame _ _ _ _) as [p emitted]. reflexivity.
Qed.

Lemma lastGravityOn_after_frame (isSwinging gravityOn : bool) (now : Z)
  (s : State) :
  lastGravityOn (fst (useFrame isSwinging gravityOn now s)) = gravityOn.
Proof.
  unfold useFrame.
  destruct (isSwinging && negb (isDragging s)), gravityOn; reflexivity.
Qed.

Lemma lastGravityOn_after_pointerDown (event : PointerEvent) (s : State) :
  lastGravityOn (handlePointerDown event s) = lastGravityOn s.
Proof.
  unfold handlePointerDown. cbn zeta. destruct (Rlt_dec _ _); reflexivity.
Qed.

Lemma lastGravityOn_after_pointerMove (event : PointerEvent) (s : State) :
  lastGravityOn (handlePointerMove event s) = lastGravityOn s.
Proof.
  unfold handlePointerMove.
  destruct (isDragging s && isClickedDown s); reflexivity.
Qed.

(** Along a session, the flag follows the toggles and [lastGravityOn]
    holds the flag as the most recent frame saw it. *)
Lemma gravity_along_session (evs : list PendulumScene.Event) :
  forall sc : PendulumScene.State,
  PendulumScene.gravityOn (PendulumScene.run sc evs)
  = Session.gravityAfter (PendulumScene.gravityOn sc) evs
  /\ lastGravityOn (PendulumScene.pendulum (PendulumScene.run sc evs))
     = last (Session.gravityAtFrames (PendulumScene.gravityOn sc) evs)
         (lastGravityOn (PendulumScene.pendulum sc)).
Proof.
  induction evs as [| ev evs IH]; intros sc; [split; reflexivity |].
  rewrite run_cons. destruct (IH (PendulumScene.step sc ev)) as [Hg Hl].
  rewrite Hg, Hl.
  destruct ev as [| | event | event | | now];
    cbn [Session.gravityAfter Session.gravityAtFrames];
    try (cbn [PendulumScene.step PendulumScene.withPendulum
              PendulumScene.gravityOn PendulumScene.pendulum];
         rewrite ?lastGravityOn_after_pointerDown,
                 ?lastGravityOn_after_pointerMove;
         split; reflexivity).
  rewrite gravityOn_after_frame, pendulum_after_frame,
    lastGravityOn_after_frame, last_cons.
  split; reflexivity.
Qed.


(** X18: in every session from the initial scene, [lastGravityOn] holds the
    gravity flag as the most recent frame saw it, and true while no frame
    has run; hence a frame stores the current angle as amplitude exactly when
    the flag is off now and was on at the previous frame, or is off at the
    first frame of the session, and keeps the amplitude otherwise. *)
Theorem X18_amplitude_capture_along_session
  (evs : list PendulumScene.Event) (now : Z) :
  let sc := PendulumScene.run PendulumScene.initialState evs in
  let seen := last (Session.gravityAtFrames false evs) true in
  PendulumScene.gravityOn sc = Session.gravityAfter false evs
  /\ lastGravityOn (PendulumScene.pendulum sc) = seen
  /\ amplitude (PendulumScene.pendulum
                  (PendulumScene.step sc (PendulumScene.Frame now)))
     = if seen && negb (Session.gravityAfter false evs)
       then angle (PendulumScene.pendulum sc)
       else amplitude (PendulumScene.pendulum sc).
Proof.
  cbn zeta.
  destruct (gravity_along_session evs PendulumScene.initialState) as [Hg Hl].
  cbn [PendulumScene.gravityOn PendulumScene.pendulum
       PendulumScene.initialState lastGravityOn initialState] in Hg, Hl.
  split; [exact Hg | split; [exact Hl |]].
  rewrite pendulum_after_frame, amplitude_after_frame.
  unfold detectGravityOff. rewrite Hl, Hg.
  destruct (last _ true), (Session.gravityAfter false evs); reflexivity.
Qed.

End GravityFlag.
